(** * A shallow embedding of [srp_tasks.py]

    The program keeps a list of tasks in memory, stores it in a flat text
    file with one comma-separated record per line, and offers adding,
    listing and completing tasks.

    Conventions of the embedding.
    - A Python [str] is a [string]; an [ascii] stands for the code point of
      the same number, so the texts covered are those over U+0000..U+00FF.
    - A Python [int] is a [Z].  The interpreter's configurable limit on the
      length of decimal conversions is not modelled.
    - [None]-or-text values are [option string].
    - Effects are explicit: a computation takes a state and returns a result
      ([Ok] or a raised exception) together with the state it leaves behind.
      The state left behind by a raising computation is kept, as in Python.
    - The file system is a finite map from file names to contents; files are
      read with universal newlines and written as on POSIX, in an encoding
      that carries every character of the model.  Failures of the operating
      system other than a missing file are not modelled.
    - [print] appends a structured message to the console; the exact wording
      and the rendering of a task are not modelled. *)

From Stdlib Require Import ZArith NArith Ascii String List Lia Bool Permutation.
From stdpp Require Import base gmap strings list sorting.

Local Open Scope Z_scope.

(** ** Exceptions and results *)

Inductive exn : Type :=
| FileNotFoundError
| ValueError
| AttributeError
| TypeError.

Global Instance exn_eq_dec : EqDecision exn.
Proof. solve_decision. Defined.

Inductive result (A : Type) : Type :=
| Ok (a : A)
| Raise (e : exn).
Arguments Ok {A} a.
Arguments Raise {A} e.

(** ** The built-in text operations the program uses *)

Module Py.

Definition LF : ascii := "010"%char.
Definition CR : ascii := "013"%char.

Definition code (c : ascii) : N := N_of_ascii c.

Definition between (lo hi n : N) : bool := ((lo <=? n) && (n <=? hi))%N.

(** [str.isspace] on one character: the set removed by [str.strip()]. *)
Definition isspace (c : ascii) : bool :=
  between 9 13 (code c) || between 28 32 (code c)
  || (code c =? 133)%N || (code c =? 160)%N.

(** The white space [int()] skips around a literal: unlike [strip], it does
    not skip the separators U+001C..U+001F. *)
Definition int_space (c : ascii) : bool :=
  between 9 13 (code c) || (code c =? 32)%N
  || (code c =? 133)%N || (code c =? 160)%N.

Definition lower_char (c : ascii) : ascii :=
  if between 65 90 (code c)
     || (between 192 222 (code c) && negb (code c =? 215)%N)
  then ascii_of_N (code c + 32)
  else c.

(** [s.lower()] *)
Fixpoint lower (s : string) : string :=
  match s with
  | EmptyString => EmptyString
  | String c s' => String (lower_char c) (lower s')
  end.

Definition is_empty (s : string) : bool :=
  match s with EmptyString => true | String _ _ => false end.

Fixpoint lstrip_by (sp : ascii → bool) (s : string) : string :=
  match s with
  | EmptyString => EmptyString
  | String c s' => if sp c then lstrip_by sp s' else s
  end.

Fixpoint rstrip_by (sp : ascii → bool) (s : string) : string :=
  match s with
  | EmptyString => EmptyString
  | String c s' =>
      let r := rstrip_by sp s' in
      if sp c && is_empty r then EmptyString else String c r
  end.

Definition strip_by (sp : ascii → bool) (s : string) : string :=
  lstrip_by sp (rstrip_by sp s).

(** [s.strip()] *)
Definition strip : string → string := strip_by isspace.

(** [c in s] for a single character [c]. *)
Fixpoint contains (c : ascii) (s : string) : bool :=
  match s with
  | EmptyString => false
  | String c' s' => Ascii.eqb c' c || contains c s'
  end.

(** [all(p(c) for c in s)] *)
Fixpoint all_chars (p : ascii → bool) (s : string) : bool :=
  match s with
  | EmptyString => true
  | String c s' => p c && all_chars p s'
  end.

(** [s.split(sep)] for a separator of one character. *)
Fixpoint split (sep : ascii) (s : string) : list string :=
  match s with
  | EmptyString => [EmptyString]
  | String c s' =>
      if Ascii.eqb c sep then EmptyString :: split sep s'
      else match split sep s' with
           | [] => [String c EmptyString]
           | p :: ps => String c p :: ps
           end
  end.

(** Reading a text file translates "\r\n" and "\r" to "\n". *)
Fixpoint universal_newlines (s : string) : string :=
  match s with
  | EmptyString => EmptyString
  | String c s' =>
      if Ascii.eqb c CR then
        String LF match s' with
                  | String c' s'' =>
                      if Ascii.eqb c' LF then universal_newlines s''
                      else universal_newlines s'
                  | EmptyString => EmptyString
                  end
      else String c (universal_newlines s')
  end.

(** Iterating over an open file: the lines, each with its terminator, the
    last one possibly without. *)
Fixpoint readlines (s : string) : list string :=
  match s with
  | EmptyString => []
  | String c s' =>
      if Ascii.eqb c LF then String c EmptyString :: readlines s'
      else match readlines s' with
           | [] => [String c EmptyString]
           | l :: ls => String c l :: ls
           end
  end.

(** *** Decimal conversions *)

Definition digit_char (d : N) : ascii := ascii_of_N (48 + d).

Fixpoint str_N_aux (fuel : nat) (n : N) (acc : string) : string :=
  match fuel with
  | O => acc
  | S fuel' =>
      let acc' := String (digit_char (n mod 10)) acc in
      if (n / 10 =? 0)%N then acc' else str_N_aux fuel' (n / 10) acc'
  end.

Definition str_N (n : N) : string :=
  str_N_aux (S (N.to_nat (N.log2 n))) n EmptyString.

(** [str(z)] for an integer. *)
Definition str_int (z : Z) : string :=
  if z <? 0 then String "-"%char (str_N (Z.abs_N z)) else str_N (Z.abs_N z).

Definition str_bool (b : bool) : string := if b then "True" else "False".

(** [str(x)] for a value that is [None] or a text. *)
Definition str_opt (o : option string) : string :=
  match o with None => "None" | Some s => s end.

(** The decimal digits among the characters of the model. *)
Definition isdecimal (c : ascii) : bool := between 48 57 (code c).

(** The characters [str] of an integer is made of. *)
Definition sign_or_digit (c : ascii) : bool :=
  isdecimal c || Ascii.eqb c "-"%char.

Definition digit_val (c : ascii) : option N :=
  if isdecimal c then Some (code c - 48)%N else None.

(** Digits, with single underscores allowed between two digits. *)
Fixpoint int_digits (acc : N) (after_digit : bool) (s : string) : option N :=
  match s with
  | EmptyString => if after_digit then Some acc else None
  | String c s' =>
      match digit_val c with
      | Some d => int_digits (acc * 10 + d) true s'
      | None =>
          if Ascii.eqb c "_"%char && after_digit
          then int_digits acc false s'
          else None
      end
  end.

Definition int_literal (s : string) : option Z :=
  match s with
  | EmptyString => None
  | String c s' =>
      if Ascii.eqb c "-"%char then (λ n, - Z.of_N n) <$> int_digits 0 false s'
      else if Ascii.eqb c "+"%char then Z.of_N <$> int_digits 0 false s'
      else Z.of_N <$> int_digits 0 false s
  end.

(** [int(s)]: white space around, an optional sign, then digits; raises
    [ValueError] when [s] is not such a literal. *)
Definition int (s : string) : result Z :=
  match int_literal (strip_by int_space s) with
  | Some z => Ok z
  | None => Raise ValueError
  end.

End Py.

(** ** Tasks *)

Record Task : Type := mkTask {
  id : Z;
  description : string;
  due_date : option string;
  completed : bool;
  priority : string
}.

(** ** The console and the file system *)

Inductive Output : Type :=
| MsgStartingFresh (file : string)               (* load_tasks, line 31 *)
| MsgTasksSaved (file : string)                  (* save_tasks, line 38 *)
| MsgInvalidPriority (given : option string)     (* Task.__init__, line 51 *)
| MsgMarked (task_id : Z) (descr : string)       (* mark_completed, line 56 *)
| MsgLoaded (count : nat) (next : Z)             (* TaskManager.__init__ *)
| MsgAdded (descr : string) (prio : string)      (* add_task, line 84 *)
| MsgHeader (title : option string)              (* lines 88 and 120 *)
| MsgNoTasks (prio : option string)              (* lines 90 and 122 *)
| MsgTask (t : Task)                             (* print(task) *)
| MsgFooter                                      (* lines 100 and 127 *)
| MsgNotFound (task_id : Z).                     (* line 114 *)

Record World : Type := mkWorld {
  fs : gmap string string;
  stdout : list Output
}.

(** ** Computations with state and exceptions *)

Definition M (St A : Type) : Type := St → result A * St.

Definition ret {St A} (a : A) : M St A := λ s, (Ok a, s).

Definition bind {St A B} (c : M St A) (k : A → M St B) : M St B :=
  λ s, match c s with
       | (Ok a, s') => k a s'
       | (Raise e, s') => (Raise e, s')
       end.

Definition lift_result {St A} (r : result A) : M St A := λ s, (r, s).

(** [try: c  except e: h] *)
Definition try_except {St A} (c : M St A) (e : exn) (h : M St A) : M St A :=
  λ s, match c s with
       | (Raise e', s') =>
           if bool_decide (e' = e) then h s' else (Raise e', s')
       | r => r
       end.

Declare Scope py_scope.
Delimit Scope py_scope with py.
Notation "'let*' x ':=' c 'in' k" := (bind c (λ x, k))
  (at level 10, x name, c at level 100, k at level 200, only parsing)
  : py_scope.
Local Open Scope py_scope.

(** The world after one more message on the console. *)
Definition say (o : Output) (w : World) : World :=
  mkWorld (fs w) (stdout w ++ [o]).

Definition print (o : Output) : M World unit := λ w, (Ok tt, say o w).

(** [open(name, "r")] followed by reading the whole text. *)
Definition open_read (name : string) : M World string :=
  λ w, match fs w !! name with
       | Some content => (Ok (Py.universal_newlines content), w)
       | None => (Raise FileNotFoundError, w)
       end.

(** The world after the file [name] has been replaced by [content]. *)
Definition written (name content : string) (w : World) : World :=
  mkWorld (<[name := content]> (fs w)) (stdout w).

(** [open(name, "w")], the writes, and the close at the end of [with]. *)
Definition write_file (name content : string) : M World unit :=
  λ w, (Ok tt, written name content w).

(** ** Task.__init__ and Task.mark_completed *)

Definition valid_priorities : list string := ["low"; "medium"; "high"].

(** Truth value of a value that is [None] or a text. *)
Definition truthy (o : option string) : bool :=
  match o with
  | Some s => negb (Py.is_empty s)
  | None => false
  end.

(** [x.lower()] and [x.upper()] on a value that is [None] or a text: [None]
    has no such attribute.  The upper-case text itself is not computed; a
    message that prints it carries the text it is taken from. *)
Definition call_lower (o : option string) : result string :=
  match o with
  | Some s => Ok (Py.lower s)
  | None => Raise AttributeError
  end.

Definition call_upper (o : option string) : result string :=
  match o with
  | Some s => Ok s
  | None => Raise AttributeError
  end.

Definition Task_init (task_id : Z) (description : string)
    (due_date : option string) (completed : bool) (priority : option string)
  : M World Task :=
  let* p := (if truthy priority then lift_result (call_lower priority)
             else ret "medium") in
  if bool_decide (p ∈ valid_priorities)
  then ret (mkTask task_id description due_date completed p)
  else
    let* _ := print (MsgInvalidPriority priority) in
    ret (mkTask task_id description due_date completed "medium").

(** The assignment [self.completed = b]. *)
Definition set_completed (self : Task) (b : bool) : Task :=
  mkTask (id self) (description self) (due_date self) b (priority self).

Definition mark_completed (self : Task) : M World Task :=
  let self := set_completed self true in
  let* _ := print (MsgMarked (id self) (description self)) in
  ret self.

(** ** The storage interface and its file implementation *)

Class TaskStorage (S : Type) : Type := {
  load_tasks : S → M World (list Task);
  save_tasks : S → list Task → M World unit
}.

Record FileTaskStorage : Type := mkFileTaskStorage { filename : string }.

(** The body of the loop of [load_tasks] for one line. *)
Definition load_line (line : string) (loaded_tasks : list Task)
  : M World (list Task) :=
  let parts := Py.split "," (Py.strip line) in
  if bool_decide (4 ≤ length parts)%nat then
    let* task_id := lift_result (Py.int (nth 0 parts EmptyString)) in
    let description := nth 1 parts EmptyString in
    let due_date :=
      if bool_decide (nth 2 parts EmptyString ≠ "None") then Some (nth 2 parts EmptyString)
      else None in
    let completed := bool_decide (nth 3 parts EmptyString = "True") in
    let priority :=
      if bool_decide (4 < length parts)%nat then nth 4 parts EmptyString
      else "medium" in
    let* task :=
      Task_init task_id description due_date completed (Some priority) in
    ret (loaded_tasks ++ [task])
  else ret loaded_tasks.

Fixpoint load_lines (lines : list string) (loaded_tasks : list Task)
  : M World (list Task) :=
  match lines with
  | [] => ret loaded_tasks
  | line :: rest =>
      let* loaded_tasks' := load_line line loaded_tasks in
      load_lines rest loaded_tasks'
  end.

Definition FileTaskStorage_load_tasks (self : FileTaskStorage)
  : M World (list Task) :=
  try_except
    (let* f := open_read (filename self) in
     load_lines (Py.readlines f) [])
    FileNotFoundError
    (let* _ := print (MsgStartingFresh (filename self)) in
     ret []).

(** One written record, line 37. *)
Definition format_record (task : Task) : string :=
  Py.str_int (id task) +:+ "," +:+ description task +:+ ","
  +:+ Py.str_opt (due_date task) +:+ "," +:+ Py.str_bool (completed task)
  +:+ "," +:+ priority task +:+ String Py.LF EmptyString.

Definition file_text (tasks : list Task) : string :=
  foldr (λ task rest, format_record task +:+ rest) EmptyString tasks.

Definition FileTaskStorage_save_tasks (self : FileTaskStorage)
    (tasks : list Task) : M World unit :=
  let* _ := write_file (filename self) (file_text tasks) in
  print (MsgTasksSaved (filename self)).

Global Instance file_task_storage : TaskStorage FileTaskStorage := {|
  load_tasks := FileTaskStorage_load_tasks;
  save_tasks := FileTaskStorage_save_tasks
|}.

(** ** Sorting, as [sorted(..., key=...)] does it

    [sorted] is stable and compares keys with [<] only.  It is modelled by
    the insertion of each element, from the last to the first, in front of
    the first element whose key is not smaller than its own; lemma
    [sorted_unique] below shows that every stable sort returns this list. *)

Section sorted.
Context {A K : Type} (lt : K → K → bool) (key : A → K).

Fixpoint insert_by (x : A) (l : list A) : list A :=
  match l with
  | [] => [x]
  | y :: l' =>
      if lt (key y) (key x) then y :: insert_by x l' else x :: y :: l'
  end.

Definition sorted (l : list A) : list A := foldr insert_by [] l.

(** [x] may stand before [y]: the key of [y] is not smaller. *)
Definition le_key (x y : A) : Prop := lt (key y) (key x) = false.
End sorted.

(** Comparison of the key tuples [(completed, -weight)]: Python compares
    tuples lexicographically, and [False < True]. *)
Definition bool_lt (a b : bool) : bool := negb a && b.

Definition key_lt (a b : bool * Z) : bool :=
  if bool_decide (a.1 = b.1) then a.2 <? b.2 else bool_lt a.1 b.1.

(** ** TaskManager *)

Record TaskManager (S : Type) : Type := mkTaskManager {
  storage : S;
  tasks : list Task;
  next_id : Z
}.
Arguments mkTaskManager {S} _ _ _.
Arguments storage {S} _.
Arguments tasks {S} _.
Arguments next_id {S} _.

(** [priority_order], line 94. *)
Definition priority_order : gmap string Z :=
  <["high" := 3]> (<["medium" := 2]> (<["low" := 1]> ∅)).

(** [priority_order.get(p, 2)] *)
Definition priority_weight (p : string) : Z := default 2 (priority_order !! p).

(** The key of line 96. *)
Definition sort_key (t : Task) : bool * Z :=
  (completed t, - priority_weight (priority t)).

Section TaskManager.
Context {S : Type} `{TaskStorage S}.

(** The state a method runs in: the manager object and the world. *)
Definition St : Type := TaskManager S * World.

Definition io {A} (c : M World A) : M St A :=
  λ s, let '(r, w') := c s.2 in (r, (s.1, w')).

Definition get_self : M St (TaskManager S) := λ s, (Ok s.1, s).

Definition set_tasks (ts : list Task) : M St unit :=
  λ s, (Ok tt, (mkTaskManager (storage s.1) ts (next_id s.1), s.2)).

Definition set_next_id (n : Z) : M St unit :=
  λ s, (Ok tt, (mkTaskManager (storage s.1) (tasks s.1) n, s.2)).

(** [max([t.id for t in tasks] + [0])] *)
Definition max_id (ts : list Task) : Z := foldr Z.max 0 (id <$> ts).

Definition TaskManager_init (storage : S) : M World (TaskManager S) :=
  let* tasks := load_tasks storage in
  let next_id :=
    match tasks with
    | [] => 1
    | _ :: _ => max_id tasks + 1
    end in
  let* _ := print (MsgLoaded (length tasks) next_id) in
  ret (mkTaskManager storage tasks next_id).

Definition add_task (description : string) (due_date : option string)
    (priority : option string) : M St Task :=
  let* self := get_self in
  let* task :=
    io (Task_init (next_id self) description due_date false priority) in
  let* _ := set_tasks (tasks self ++ [task]) in
  let* self := get_self in
  let* _ := set_next_id (next_id self + 1) in
  let* self := get_self in
  let* _ := io (save_tasks (storage self) (tasks self)) in
  let* shown := lift_result (call_upper priority) in
  let* _ := io (print (MsgAdded description shown)) in
  ret task.

Fixpoint print_tasks (ts : list Task) : M World unit :=
  match ts with
  | [] => ret tt
  | task :: rest =>
      let* _ := print (MsgTask task) in
      print_tasks rest
  end.

Definition list_tasks : M St unit :=
  let* _ := io (print (MsgHeader None)) in
  let* self := get_self in
  match tasks self with
  | [] => io (print (MsgNoTasks None))
  | _ :: _ =>
      let sorted_tasks := sorted key_lt sort_key (tasks self) in
      let* _ := io (print_tasks sorted_tasks) in
      io (print MsgFooter)
  end.

(** The linear scan of lines 103-106.  The object it returns is a
    reference into [self.tasks]; it is modelled by the task found together
    with its position in the list. *)
Fixpoint scan (task_id : Z) (ts : list Task) (pos : nat)
  : option (nat * Task) :=
  match ts with
  | [] => None
  | task :: rest =>
      if bool_decide (id task = task_id) then Some (pos, task)
      else scan task_id rest (Datatypes.S pos)
  end.

Definition get_task_by_id (self : TaskManager S) (task_id : Z)
  : option (nat * Task) :=
  scan task_id (tasks self) 0.

(** A task object is always true in a condition: the class defines neither
    [__bool__] nor [__len__]. *)
Definition mark_task_completed (task_id : Z) : M St bool :=
  let* self := get_self in
  match get_task_by_id self task_id with
  | Some (pos, task) =>
      let* task' := io (mark_completed task) in
      let* _ := set_tasks (<[pos := task']> (tasks self)) in
      let* self := get_self in
      let* _ := io (save_tasks (storage self) (tasks self)) in
      ret true
  | None =>
      let* _ := io (print (MsgNotFound task_id)) in
      ret false
  end.

Definition list_tasks_by_priority (prio : option string) : M St unit :=
  let* self := get_self in
  let* wanted := lift_result (call_lower prio) in
  let filtered_tasks :=
    filter (λ task, priority task = wanted) (tasks self) in
  let* _ := lift_result (call_upper prio) in
  let* _ := io (print (MsgHeader prio)) in
  match filtered_tasks with
  | [] => io (print (MsgNoTasks prio))
  | _ :: _ =>
      let* _ := io (print_tasks filtered_tasks) in
      io (print MsgFooter)
  end.
End TaskManager.

(** ** Vocabulary of the statements *)

(** A text that the record format carries unchanged: it holds no comma and
    no line break. *)
Definition plain_text (s : string) : bool :=
  negb (Py.contains "," s) && negb (Py.contains Py.LF s)
  && negb (Py.contains Py.CR s).

(** A task that the file format represents faithfully. *)
Definition storable (t : Task) : Prop :=
  plain_text (description t) = true
  ∧ match due_date t with
    | None => True
    | Some d => plain_text d = true ∧ d ≠ "None"
    end
  ∧ priority t ∈ valid_priorities.

(** The number of comma-separated fields of a line, as the loop of
    [load_tasks] counts them. *)
Definition field_count (line : string) : nat :=
  length (Py.split "," (Py.strip line)).

Definition long_enough (line : string) : Prop := (4 ≤ field_count line)%nat.

(** The lines the loop of [load_tasks] iterates over. *)
Definition file_lines (content : string) : list string :=
  Py.readlines (Py.universal_newlines content).

(** The first field of a line is an integer literal, so that [int] accepts
    it. *)
Definition has_int_id (line : string) : bool :=
  match Py.int (nth 0 (Py.split "," (Py.strip line)) EmptyString) with
  | Ok _ => true
  | Raise _ => false
  end.

(** [yields line t]: the loop body builds the task [t] from [line]. *)
Definition yields (line : string) (t : Task) : Prop :=
  ∃ w w', load_line line [] w = (Ok [t], w').


(** The order of the sort keys: [a] may stand before [b]. *)
Definition key_le (a b : bool * Z) : Prop := key_lt b a = false.

(** The order the listing promises between a task [a] displayed before a
    task [b]. *)
Definition in_listing_order (a b : Task) : Prop :=
  (completed a = false ∧ completed b = true)
  ∨ (completed a = completed b
     ∧ priority_weight (priority a) >= priority_weight (priority b)).

(** The tasks a stretch of console output displays. *)
Definition displayed (out : list Output) : list Task :=
  omap (λ o, match o with MsgTask t => Some t | _ => None end) out.

Definition ids (ts : list Task) : list Z := id <$> ts.

(** The manager after [add_task] has appended [task]. *)
Definition grown {S} (m : TaskManager S) (task : Task) : TaskManager S :=
  mkTaskManager (storage m) (tasks m ++ [task]) (next_id m + 1).

(** The manager after the task at [pos] has been replaced. *)
Definition updated {S} (m : TaskManager S) (pos : nat) (task : Task)
  : TaskManager S :=
  mkTaskManager (storage m) (<[pos := task]> (tasks m)) (next_id m).

(** The managers that calls of [add_task] and [mark_task_completed] lead to
    from [m0], whatever the calls return and whatever happens to the world
    between them. *)
Inductive reachable_from {S} `{TaskStorage S} (m0 : TaskManager S)
  : TaskManager S → Prop :=
| reach_start : reachable_from m0 m0
| reach_add m descr due given w r m' w' :
    reachable_from m0 m →
    add_task descr due given (m, w) = (r, (m', w')) →
    reachable_from m0 m'
| reach_mark m task_id w r m' w' :
    reachable_from m0 m →
    mark_task_completed task_id (m, w) = (r, (m', w')) →
    reachable_from m0 m'.

(** [t] is [t0] after any number of completions: every field but the flag
    is the same, and a set flag stays set. *)
Definition same_but_done (t0 t : Task) : Prop :=
  id t = id t0 ∧ description t = description t0 ∧ due_date t = due_date t0
  ∧ priority t = priority t0 ∧ (completed t0 = true → completed t = true).

(** The priority [Task.__init__] stores for an input. *)
Definition stored_priority (given : option string) : string :=
  match given with
  | Some s =>
      if bool_decide (Py.lower s ∈ valid_priorities) then Py.lower s
      else "medium"
  | None => "medium"
  end.

(** The inputs [Task.__init__] warns about: the non-empty texts whose
    lower-case form is no priority. *)
Definition unknown_priority (given : option string) : bool :=
  match given with
  | Some s =>
      negb (Py.is_empty s)
      && negb (bool_decide (Py.lower s ∈ valid_priorities))
  | None => false
  end.

(** A description and a due date that the record format carries. *)
Definition storable_input (descr : string) (due : option string) : Prop :=
  plain_text descr = true
  ∧ match due with
    | None => True
    | Some d => plain_text d = true ∧ d ≠ "None"
    end.

(** The file of the manager holds the records of its collection. *)
Definition in_sync (m : TaskManager FileTaskStorage) (w : World) : Prop :=
  fs w !! filename (storage m) = Some (file_text (tasks m)).

(** A character that is no line break. *)
Definition no_break (c : ascii) : bool :=
  negb (Ascii.eqb c Py.LF) && negb (Ascii.eqb c Py.CR).

(** A manager that a restart rebuilds: its tasks are storable, its
    [next_id] is the one construction computes, and its file holds its
    collection. *)
Definition restartable (m : TaskManager FileTaskStorage) (w : World) : Prop :=
  Forall storable (tasks m)
  ∧ next_id m = max_id (tasks m) + 1
  ∧ in_sync m w.

(** The console output of [list_tasks_by_priority] for the tasks found. *)
Definition priority_listing (prio : option string) (found : list Task)
  : list Output :=
  MsgHeader prio ::
  match found with
  | [] => [MsgNoTasks prio]
  | _ :: _ => (MsgTask <$> found) ++ [MsgFooter]
  end.

(** * The model on concrete inputs *)

Example int_spaces_underscore : Py.int " 5_0 " = Ok 50.
Proof. reflexivity. Qed.

Example int_negative_leading_zero : Py.int "-05" = Ok (-5).
Proof. reflexivity. Qed.

Example int_double_underscore : Py.int "1__0" = Raise ValueError.
Proof. reflexivity. Qed.

Example int_letters : Py.int "abc" = Raise ValueError.
Proof. reflexivity. Qed.

Example int_empty : Py.int EmptyString = Raise ValueError.
Proof. reflexivity. Qed.

Example str_int_positive : Py.str_int 1203 = "1203".
Proof. reflexivity. Qed.

Example str_int_negative : Py.str_int (-7) = "-7".
Proof. reflexivity. Qed.

Example str_int_zero : Py.str_int 0 = "0".
Proof. reflexivity. Qed.

Example split_keeps_empty_fields :
  Py.split "," "a,,b," = ["a"; EmptyString; "b"; EmptyString].
Proof. reflexivity. Qed.

Example split_empty : Py.split "," EmptyString = [EmptyString].
Proof. reflexivity. Qed.

Example strip_both_ends : Py.strip "  a b  " = "a b".
Proof. reflexivity. Qed.

Example lower_mixed : Py.lower "HiGh" = "high".
Proof. reflexivity. Qed.

Example readlines_last_unterminated :
  Py.readlines (String "a" (String Py.LF (String Py.LF "b")))
  = [String "a" (String Py.LF EmptyString); String Py.LF EmptyString; "b"].
Proof. reflexivity. Qed.

Example universal_newlines_crlf :
  Py.universal_newlines
    (String "a" (String Py.CR (String Py.LF (String "b" (String Py.CR "c")))))
  = String "a" (String Py.LF (String "b" (String Py.LF "c"))).
Proof. reflexivity. Qed.

Example format_record_absent_due :
  format_record (mkTask 2 "Clean desk" None false "medium")
  = "2,Clean desk,None,False,medium
".
Proof. reflexivity. Qed.

Example sorted_is_stable :
  sorted key_lt sort_key
    [mkTask 1 "a" None true "high"; mkTask 2 "b" None false "low";
     mkTask 3 "c" None false "high"; mkTask 4 "d" None false "low"]
  = [mkTask 3 "c" None false "high"; mkTask 2 "b" None false "low";
     mkTask 4 "d" None false "low"; mkTask 1 "a" None true "high"].
Proof. reflexivity. Qed.

(** The scenario of the documentation: two additions to an empty store, a
    completion, and the file left behind. *)
Example scenario :
  let self := mkFileTaskStorage "my_tasks.txt" in
  let s0 := (mkTaskManager self [] 1, mkWorld ∅ []) in
  let r1 := add_task "Write spec" (Some "2024-01-01") (Some "high") s0 in
  let r2 := add_task "Clean desk" None (Some "medium") r1.2 in
  let r3 := mark_task_completed 1 r2.2 in
  r1.1 = Ok (mkTask 1 "Write spec" (Some "2024-01-01") false "high")
  ∧ r2.1 = Ok (mkTask 2 "Clean desk" None false "medium")
  ∧ r3.1 = Ok true
  ∧ fs r3.2.2 !! "my_tasks.txt"
    = Some "1,Write spec,2024-01-01,True,high
2,Clean desk,None,False,medium
".
Proof. repeat split; reflexivity. Qed.

(** * Facts about the text operations *)

Module PyFacts.
Import Py.

Lemma append_nil (b : string) : EmptyString +:+ b = b.
Proof. reflexivity. Qed.

Lemma append_cons x (a b : string) : String x a +:+ b = String x (a +:+ b).
Proof. reflexivity. Qed.

Ltac str_simpl := rewrite ?append_cons, ?append_nil; simpl.

Lemma append_assoc (a b c : string) : (a +:+ b) +:+ c = a +:+ (b +:+ c).
Proof. induction a as [|x a IH]; str_simpl; [done | by f_equal]. Qed.

(** Appends nested to the right, with the leading characters exposed. *)
Ltac str_norm :=
  repeat (rewrite append_assoc || rewrite append_cons || rewrite append_nil).

Lemma contains_append c (a b : string) :
  contains c (a +:+ b) = contains c a || contains c b.
Proof.
  induction a as [|x a IH]; str_simpl; [done |].
  by rewrite IH, orb_assoc.
Qed.

Lemma all_chars_contains p c s :
  all_chars p s = true → p c = false → contains c s = false.
Proof.
  intros Hall Hc. induction s as [|x s IH]; simpl in *; [done |].
  apply andb_true_iff in Hall as [Hx Hs]. rewrite (IH Hs), orb_false_r.
  apply Ascii.eqb_neq. intros ->. congruence.
Qed.

Lemma split_plain sep a : contains sep a = false → split sep a = [a].
Proof.
  induction a as [|x a IH]; str_simpl; [done |].
  intros [Hx Ha]%orb_false_iff. by rewrite Hx, (IH Ha).
Qed.

Lemma split_append sep a b :
  contains sep a = false →
  split sep (a +:+ String sep b) = a :: split sep b.
Proof.
  induction a as [|x a IH]; str_simpl.
  - intros _. by rewrite Ascii.eqb_refl.
  - intros [Hx Ha]%orb_false_iff. by rewrite Hx, (IH Ha).
Qed.

Lemma readlines_append l rest :
  contains LF l = false →
  readlines (l +:+ String LF rest) = (l +:+ String LF EmptyString) :: readlines rest.
Proof.
  induction l as [|x l IH]; str_simpl.
  - done.
  - intros [Hx Hl]%orb_false_iff. by rewrite Hx, (IH Hl).
Qed.

Lemma universal_newlines_plain s :
  contains CR s = false → universal_newlines s = s.
Proof.
  induction s as [|x s IH]; str_simpl; [done |].
  intros [Hx Hs]%orb_false_iff. by rewrite Hx, (IH Hs).
Qed.

Lemma lstrip_by_head sp c s :
  sp c = false → lstrip_by sp (String c s) = String c s.
Proof. intros Hc. str_simpl. by rewrite Hc. Qed.

Lemma is_empty_append_r (s t : string) : t ≠ EmptyString → is_empty (s +:+ t) = false.
Proof. destruct s, t; str_simpl; congruence. Qed.

Lemma rstrip_by_keep sp s t :
  rstrip_by sp t = t → t ≠ EmptyString → rstrip_by sp (s +:+ t) = s +:+ t.
Proof.
  intros Ht Hne. induction s as [|x s IH]; str_simpl; [done |].
  rewrite IH, is_empty_append_r by done. by rewrite andb_false_r.
Qed.

Lemma rstrip_by_drop sp s c :
  sp c = true → rstrip_by sp (s +:+ String c EmptyString) = rstrip_by sp s.
Proof.
  intros Hc. induction s as [|x s IH]; str_simpl.
  - by rewrite Hc.
  - by rewrite IH.
Qed.

Lemma rstrip_by_none sp s :
  all_chars (λ c, negb (sp c)) s = true → rstrip_by sp s = s.
Proof.
  induction s as [|x s IH]; str_simpl; [done |].
  intros [Hx Hs]%andb_true_iff. rewrite (IH Hs).
  apply negb_true_iff in Hx. by rewrite Hx.
Qed.

Lemma strip_by_none sp s :
  all_chars (λ c, negb (sp c)) s = true → strip_by sp s = s.
Proof.
  intros Hall. unfold strip_by. rewrite rstrip_by_none by done.
  destruct s as [|x s]; simpl in *; [done |].
  apply andb_true_iff in Hall as [Hx _]. apply negb_true_iff in Hx.
  by rewrite Hx.
Qed.

(** *** Decimal conversions *)

Lemma digit_char_spec d :
  (d < 10)%N →
  isdecimal (digit_char d) = true ∧ digit_val (digit_char d) = Some d.
Proof.
  intros Hd.
  assert (Hcases : d ∈ [0; 1; 2; 3; 4; 5; 6; 7; 8; 9]%N).
  { rewrite !elem_of_cons. lia. }
  rewrite !elem_of_cons, elem_of_nil in Hcases.
  destruct_or!; subst; try done; by vm_compute.
Qed.

Lemma sign_or_digit_int_space c :
  sign_or_digit c = true → int_space c = false.
Proof.
  unfold sign_or_digit, isdecimal, int_space, between.
  intros [H | H]%orb_true_iff.
  - apply andb_true_iff in H as [H1 H2].
    apply N.leb_le in H1, H2.
    repeat (apply orb_false_iff; split);
      rewrite ?andb_false_iff, ?N.leb_gt, ?N.eqb_neq; lia.
  - apply Ascii.eqb_eq in H as ->. done.
Qed.

Lemma sign_or_digit_isspace c :
  sign_or_digit c = true → isspace c = false.
Proof.
  unfold sign_or_digit, isdecimal, isspace, between.
  intros [H | H]%orb_true_iff.
  - apply andb_true_iff in H as [H1 H2].
    apply N.leb_le in H1, H2.
    repeat (apply orb_false_iff; split);
      rewrite ?andb_false_iff, ?N.leb_gt, ?N.eqb_neq; lia.
  - apply Ascii.eqb_eq in H as ->. done.
Qed.

Lemma str_N_aux_chars fuel n acc :
  all_chars isdecimal acc = true →
  all_chars isdecimal (str_N_aux fuel n acc) = true.
Proof.
  revert n acc. induction fuel as [|fuel IH]; intros n acc Hacc; simpl.
  - done.
  - assert (Hd : isdecimal (digit_char (n mod 10)) = true).
    { apply digit_char_spec. apply N.mod_lt. lia. }
    destruct (n / 10 =? 0)%N.
    + simpl. by rewrite Hd.
    + apply IH. simpl. by rewrite Hd.
Qed.

Lemma str_N_aux_step fuel n acc :
  str_N_aux (Datatypes.S fuel) n acc
  = if (n / 10 =? 0)%N then String (digit_char (n mod 10)) acc
    else str_N_aux fuel (n / 10) (String (digit_char (n mod 10)) acc).
Proof. reflexivity. Qed.

Lemma int_digits_str_N_aux fuel n rest a b :
  (n < 2 ^ N.of_nat (Datatypes.S fuel))%N →
  ∃ k : N,
    int_digits a b (str_N_aux (Datatypes.S fuel) n rest)
    = int_digits (a * 10 ^ k + n) true rest.
Proof.
  revert n rest a b. induction fuel as [|fuel IH]; intros n rest a b Hn.
  - assert (n < 10)%N by (change (2 ^ N.of_nat 1)%N with 2%N in Hn; lia).
    exists 1%N. cbn [str_N_aux].
    rewrite N.div_small, N.mod_small by done. simpl.
    destruct (digit_char_spec n) as [_ ->]; [done |].
    by rewrite N.pow_1_r.
  - rewrite str_N_aux_step. destruct (N.eqb_spec (n / 10) 0) as [Hq | Hq].
    + assert (n < 10)%N.
      { destruct (N.lt_ge_cases n 10) as [? | Hge]; [done |].
        pose proof (N.Div0.div_le_mono 10 n 10 Hge) as Hle.
        rewrite N.div_same in Hle by lia. lia. }
      exists 1%N. rewrite N.mod_small by done. simpl.
      destruct (digit_char_spec n) as [_ ->]; [done |].
      by rewrite N.pow_1_r.
    + assert (Hlt : (n / 10 < 2 ^ N.of_nat (Datatypes.S fuel))%N).
      { rewrite Nat2N.inj_succ, N.pow_succ_r' in Hn.
        apply N.Div0.div_lt_upper_bound. lia. }
      destruct (IH (n / 10)%N (String (digit_char (n mod 10)) rest) a b Hlt)
        as [k Hk].
      exists (N.succ k). rewrite Hk. simpl.
      destruct (digit_char_spec (n mod 10)) as [_ ->].
      { apply N.mod_lt. lia. }
      f_equal. rewrite N.pow_succ_r'.
      pose proof (N.div_mod n 10 ltac:(lia)). lia.
Qed.

Lemma int_digits_str_N n : int_digits 0 false (str_N n) = Some n.
Proof.
  unfold str_N.
  destruct (int_digits_str_N_aux (N.to_nat (N.log2 n)) n EmptyString 0%N false)
    as [k Hk].
  - rewrite Nat2N.inj_succ, N2Nat.id.
    destruct (N.eq_dec n 0%N) as [-> | Hn]; [done |].
    pose proof (N.log2_spec n). lia.
  - rewrite Hk. simpl. f_equal; lia.
Qed.

Lemma str_N_chars n : all_chars isdecimal (str_N n) = true.
Proof. by apply str_N_aux_chars. Qed.

Lemma all_chars_weaken (p q : ascii → bool) s :
  (∀ c, p c = true → q c = true) →
  all_chars p s = true → all_chars q s = true.
Proof.
  intros Hpq. induction s as [|x s IH]; simpl; [done |].
  intros [Hx Hs]%andb_true_iff. by rewrite (Hpq _ Hx), (IH Hs).
Qed.

Lemma str_int_chars z : all_chars sign_or_digit (str_int z) = true.
Proof.
  assert (Hn : ∀ n, all_chars sign_or_digit (str_N n) = true).
  { intros n. eapply all_chars_weaken; [| apply str_N_chars].
    intros c Hc. unfold sign_or_digit. by rewrite Hc. }
  unfold str_int. destruct (z <? 0); simpl; by rewrite ?Hn.
Qed.

Lemma int_str_int z : int (str_int z) = Ok z.
Proof.
  unfold int. rewrite strip_by_none.
  2: { eapply all_chars_weaken; [| apply str_int_chars].
       intros c Hc. by rewrite (sign_or_digit_int_space c Hc). }
  unfold str_int. destruct (Z.ltb_spec z 0) as [Hz | Hz].
  - simpl. rewrite int_digits_str_N. simpl. do 2 f_equal. lia.
  - pose proof (int_digits_str_N (Z.abs_N z)) as Hd.
    pose proof (str_N_chars (Z.abs_N z)) as Hc.
    destruct (str_N (Z.abs_N z)) as [|c s] eqn:Hs; [done |].
    simpl in Hc. apply andb_true_iff in Hc as [Hc _].
    unfold int_literal.
    assert (Ascii.eqb c "-" = false) as ->.
    { apply Ascii.eqb_neq. intros ->. done. }
    assert (Ascii.eqb c "+" = false) as ->.
    { apply Ascii.eqb_neq. intros ->. done. }
    rewrite Hd. simpl. do 2 f_equal. lia.
Qed.

End PyFacts.

(** * The file storage *)

(** The monadic code is run by unfolding its combinators. *)
Ltac elem_of_list :=
  repeat first [apply list_elem_of_here | apply list_elem_of_further].

Ltac run :=
  unfold bind, ret, lift_result, print, try_except, io, get_self,
    set_tasks, set_next_id, write_file, open_read; simpl.

Section file_storage.
Import Py PyFacts.

Lemma Task_init_valid i d due c p w :
  p ∈ valid_priorities →
  Task_init i d due c (Some p) w = (Ok (mkTask i d due c p), w).
Proof.
  unfold valid_priorities. rewrite !elem_of_cons, elem_of_nil.
  intros Hp. destruct_or!; subst; done.
Qed.

(** A record without its line terminator. *)
Lemma format_record_body t :
  format_record t
  = (str_int (id t) +:+ String "," (description t +:+
       String "," (str_opt (due_date t) +:+
         String "," (str_bool (completed t) +:+
           String "," (priority t))))) +:+ String LF EmptyString.
Proof. unfold format_record. by str_norm. Qed.

Lemma str_int_head z :
  ∃ c s, str_int z = String c s ∧ sign_or_digit c = true.
Proof.
  pose proof (int_str_int z) as Hi. pose proof (str_int_chars z) as Hc.
  destruct (str_int z) as [|c s]; [done |].
  exists c, s. split; [done |].
  simpl in Hc. by apply andb_true_iff in Hc as [? _].
Qed.

Lemma contains_str_int x z :
  sign_or_digit x = false → contains x (str_int z) = false.
Proof. intros Hx. by eapply all_chars_contains; [apply str_int_chars |]. Qed.

Lemma plain_text_spec s :
  plain_text s = true →
  contains "," s = false ∧ contains LF s = false ∧ contains CR s = false.
Proof.
  unfold plain_text. rewrite !andb_true_iff, !negb_true_iff. tauto.
Qed.

Lemma storable_fields t :
  storable t →
  ∀ x, x = ","%char ∨ x = LF ∨ x = CR →
    contains x (description t) = false
    ∧ contains x (str_opt (due_date t)) = false
    ∧ contains x (str_bool (completed t)) = false
    ∧ contains x (priority t) = false.
Proof.
  intros (Hd & Hdue & Hp) x Hx.
  apply plain_text_spec in Hd as (Hd1 & Hd2 & Hd3).
  assert (contains x (str_opt (due_date t)) = false).
  { destruct (due_date t) as [d|]; simpl.
    - destruct Hdue as [Hdue _].
      apply plain_text_spec in Hdue as (? & ? & ?).
      destruct_or!; by subst.
    - destruct_or!; by subst. }
  assert (contains x (str_bool (completed t)) = false).
  { destruct (completed t); destruct_or!; by subst. }
  assert (contains x (priority t) = false).
  { unfold valid_priorities in Hp.
    rewrite !elem_of_cons, elem_of_nil in Hp.
    destruct Hp as [-> | [-> | [-> | []]]]; destruct_or!; by subst. }
  repeat split; try done. destruct_or!; by subst.
Qed.

Lemma parts_of_record t :
  storable t →
  split "," (strip (format_record t))
  = [str_int (id t); description t; str_opt (due_date t);
     str_bool (completed t); priority t].
Proof.
  intros Ht.
  destruct (storable_fields t Ht "," ltac:(auto)) as (H1 & H2 & H3 & H4).
  assert (Hp : rstrip_by isspace (priority t) = priority t
               ∧ priority t ≠ EmptyString).
  { destruct Ht as (_ & _ & Hp). unfold valid_priorities in Hp.
    rewrite !elem_of_cons, elem_of_nil in Hp.
    by destruct Hp as [-> | [-> | [-> | []]]]. }
  destruct Hp as [Hp1 Hp2].
  rewrite format_record_body. unfold strip, strip_by.
  rewrite rstrip_by_drop by done.
  replace (str_int (id t) +:+ String "," (description t +:+
             String "," (str_opt (due_date t) +:+
               String "," (str_bool (completed t) +:+
                 String "," (priority t)))))
    with ((str_int (id t) +:+ String "," (description t +:+
             String "," (str_opt (due_date t) +:+
               String "," (str_bool (completed t) +:+ ","))))
          +:+ priority t)
    by (by str_norm).
  rewrite rstrip_by_keep by done.
  str_norm.
  destruct (str_int_head (id t)) as (c & s & Hs & Hc).
  rewrite Hs at 1. rewrite append_cons.
  rewrite lstrip_by_head by (by apply sign_or_digit_isspace).
  rewrite <- append_cons, <- Hs.
  rewrite split_append by (by apply contains_str_int).
  rewrite split_append by done.
  rewrite split_append by done.
  rewrite split_append by done.
  by rewrite split_plain.
Qed.

Lemma load_line_record t acc w :
  storable t →
  load_line (format_record t) acc w = (Ok (acc ++ [t]), w).
Proof.
  intros Ht. unfold load_line. rewrite (parts_of_record t Ht).
  cbn [length nth].
  rewrite (bool_decide_true (4 ≤ 5)%nat), (bool_decide_true (4 < 5)%nat)
    by lia.
  unfold bind at 1, lift_result. rewrite int_str_int.
  unfold bind. destruct Ht as (_ & Hdue & Hp).
  rewrite (Task_init_valid _ _ _ _ _ w Hp). unfold ret.
  assert ((if bool_decide (str_opt (due_date t) ≠ "None")
           then Some (str_opt (due_date t)) else None) = due_date t) as ->.
  { destruct (due_date t) as [x|]; simpl; [| done].
    destruct Hdue as [_ Hx]. by rewrite bool_decide_true. }
  assert (bool_decide (str_bool (completed t) = "True") = completed t)
    as -> by (by destruct (completed t)).
  by destruct t.
Qed.

Lemma load_lines_records ts acc w :
  Forall storable ts →
  load_lines (map format_record ts) acc w = (Ok (acc ++ ts), w).
Proof.
  intros Hts. revert acc.
  induction Hts as [|t ts Ht _ IH]; intros acc; simpl.
  - unfold ret. by rewrite app_nil_r.
  - unfold bind. rewrite load_line_record by done.
    rewrite IH. by rewrite <- app_assoc.
Qed.

Lemma contains_record x t :
  storable t → x = LF ∨ x = CR →
  contains x (str_int (id t) +:+ String "," (description t +:+
       String "," (str_opt (due_date t) +:+
         String "," (str_bool (completed t) +:+
           String "," (priority t))))) = false.
Proof.
  intros Ht Hx.
  destruct (storable_fields t Ht x ltac:(tauto)) as (H1 & H2 & H3 & H4).
  assert (Hsd : sign_or_digit x = false) by (by destruct Hx as [-> | ->]).
  assert (Hc : Ascii.eqb "," x = false) by (by destruct Hx as [-> | ->]).
  assert (Hcons : ∀ s, contains x (String "," s) = contains x s).
  { intros s. change (contains x (String "," s))
      with (Ascii.eqb "," x || contains x s). by rewrite Hc. }
  rewrite contains_append, contains_str_int, Hcons by done.
  rewrite contains_append, H1, Hcons.
  rewrite contains_append, H2, Hcons.
  by rewrite contains_append, H3, Hcons, H4.
Qed.

Lemma file_text_plain ts :
  Forall storable ts → contains CR (file_text ts) = false.
Proof.
  induction 1 as [|t ts Ht _ IH]; simpl; [done |].
  rewrite contains_append, IH, format_record_body, contains_append.
  rewrite contains_record by auto. done.
Qed.

Lemma readlines_file_text ts :
  Forall storable ts → readlines (file_text ts) = map format_record ts.
Proof.
  induction 1 as [|t ts Ht _ IH]; simpl; [done |].
  rewrite format_record_body at 1. rewrite append_assoc, append_cons.
  rewrite append_nil, readlines_append by (apply contains_record; auto).
  by rewrite IH, <- format_record_body.
Qed.
End file_storage.

(** C1, as amended.  Saving a sequence of tasks and loading the file again
    returns the same sequence (same length, same order, every task with the
    same id, description, due date, completion flag and priority), provided
    every description and every due date is free of commas and line breaks,
    no due date is the text "None", and every priority is one of low, medium
    and high.  The load leaves the world as the save left it. *)
Theorem save_load_round_trip (self : FileTaskStorage) (tasks : list Task)
    (w : World) :
  Forall storable tasks →
  ∃ w', FileTaskStorage_save_tasks self tasks w = (Ok tt, w')
        ∧ fs w' !! filename self = Some (file_text tasks)
        ∧ FileTaskStorage_load_tasks self w' = (Ok tasks, w').
Proof.
  intros Hts. eexists. split; [reflexivity |]. split.
  - simpl. apply lookup_insert_eq.
  - unfold FileTaskStorage_load_tasks, try_except, bind at 1, open_read.
    simpl. rewrite lookup_insert_eq.
    rewrite PyFacts.universal_newlines_plain by (by apply file_text_plain).
    rewrite readlines_file_text by done.
    by rewrite load_lines_records.
Qed.

(** C1 fails as stated.  A description with a comma shifts the fields of
    its record, so the task comes back with another description and due
    date; a due date that is the text "None" comes back absent; and a
    description with a line break is split over two lines, the second of
    which starts with no integer, so that the load raises [ValueError]. *)
Lemma round_trip_fails_with_comma :
  let self := mkFileTaskStorage "tasks.txt" in
  let reload ts :=
    (FileTaskStorage_load_tasks self
       (FileTaskStorage_save_tasks self ts (mkWorld ∅ [])).2).1 in
  let t := mkTask 1 "a,b" None false "medium" in
  let u := mkTask 1 "a" (Some "None") false "medium" in
  let v := mkTask 1 (String "a" (String Py.LF "b")) None false "medium" in
  (0 < id t ∧ description t ≠ EmptyString ∧ priority t ∈ valid_priorities)
  ∧ reload [t] = Ok [mkTask 1 "a" (Some "b") false "medium"]
  ∧ reload [t] ≠ Ok [t]
  ∧ reload [u] = Ok [mkTask 1 "a" None false "medium"]
  ∧ reload [u] ≠ Ok [u]
  ∧ reload [v] = Raise ValueError.
Proof.
  repeat split;
    first [ reflexivity | discriminate | elem_of_list
          | vm_compute; intros [=] ].
Qed.

Lemma save_load_round_trip_witness :
  let ts := [mkTask 1 "Write spec" (Some "2024-01-01") true "high";
             mkTask 2 "Clean desk" None false "medium"] in
  let self := mkFileTaskStorage "my_tasks.txt" in
  ∃ w', FileTaskStorage_save_tasks self ts (mkWorld ∅ []) = (Ok tt, w')
        ∧ fs w' !! filename self = Some (file_text ts)
        ∧ FileTaskStorage_load_tasks self w' = (Ok ts, w').
Proof.
  apply save_load_round_trip.
  repeat first [apply List.Forall_nil | apply List.Forall_cons];
    (split; [reflexivity |]; split;
      [simpl; first [exact I | split; [reflexivity | discriminate]]
      | elem_of_list]).
Defined.

(** * Loading: short lines, old records, missing files *)

Section loading.
Import Py PyFacts.

Lemma Task_init_fields i d due c given w :
  ∃ t w', Task_init i d due c given w = (Ok t, w')
          ∧ id t = i ∧ description t = d ∧ due_date t = due
          ∧ completed t = c.
Proof.
  unfold Task_init. run.
  destruct given as [p|]; simpl; [destruct (is_empty p); simpl |];
    repeat match goal with
           | |- context [bool_decide ?P] => destruct (bool_decide P)
           end; eauto 10.
Qed.

Lemma load_line_short line acc w :
  ¬ long_enough line → load_line line acc w = (Ok acc, w).
Proof.
  unfold long_enough, field_count, load_line. intros Hn.
  by rewrite bool_decide_false.
Qed.

(** What the loop body does with a line of four fields or more. *)
Lemma load_line_long line acc w :
  long_enough line →
  if has_int_id line
  then ∃ t w', ∀ acc', load_line line acc' w = (Ok (acc' ++ [t]), w')
  else load_line line acc w = (Raise ValueError, w).
Proof.
  unfold long_enough, field_count, has_int_id. intros Hlen.
  unfold load_line. set (parts := split "," (strip line)) in *.
  rewrite bool_decide_true by done.
  unfold bind at 1, lift_result.
  destruct (int (nth 0 parts EmptyString)) as [z|e] eqn:Hint.
  2: { unfold int in Hint.
       destruct (int_literal _); [done |]. by injection Hint as <-. }
  destruct (Task_init_fields z (nth 1 parts EmptyString)
              (if bool_decide (nth 2 parts EmptyString ≠ "None")
               then Some (nth 2 parts EmptyString) else None)
              (bool_decide (nth 3 parts EmptyString = "True"))
              (Some (if bool_decide (4 < length parts)%nat
                     then nth 4 parts EmptyString else "medium")) w)
    as (t & w' & Ht & _).
  exists t, w'. intros acc'.
  rewrite ?(bool_decide_true (4 ≤ length parts)%nat) by done.
  unfold bind, lift_result. rewrite ?Hint. by rewrite Ht.
Qed.

(** The loop over lines of four fields or more: it returns one task per
    line when every id field is an integer literal, and raises
    [ValueError] at the first one that is not. *)
Lemma load_lines_long lines acc w :
  Forall long_enough lines →
  if forallb has_int_id lines
  then ∃ ts w', load_lines lines acc w = (Ok (acc ++ ts), w')
                ∧ Forall2 yields lines ts
  else ∃ w', load_lines lines acc w = (Raise ValueError, w').
Proof.
  intros Hlong. revert acc w.
  induction Hlong as [|line lines Hl _ IH]; intros acc w; simpl.
  - exists [], w. unfold ret. by rewrite app_nil_r.
  - unfold bind. pose proof (load_line_long line acc w Hl) as Hline.
    destruct (has_int_id line); simpl.
    + destruct Hline as (t & w1 & Hline). rewrite Hline.
      specialize (IH (acc ++ [t]) w1).
      destruct (forallb has_int_id lines).
      * destruct IH as (ts & w2 & -> & Hts).
        exists (t :: ts), w2. split; [by rewrite <- app_assoc |].
        constructor; [| done]. exists w, w1. apply (Hline []).
      * done.
    + rewrite Hline. eauto.
Qed.

Lemma load_lines_filter lines acc w :
  load_lines lines acc w = load_lines (filter long_enough lines) acc w.
Proof.
  revert acc w. induction lines as [|line lines IH]; intros acc w; [done |].
  destruct (decide (long_enough line)) as [Hl | Hl].
  - rewrite filter_cons_True by done. simpl. unfold bind.
    destruct (load_line line acc w) as [[l|e] w1]; [apply IH | done].
  - rewrite filter_cons_False by done. simpl. unfold bind.
    rewrite load_line_short by done. apply IH.
Qed.

Lemma load_lines_raise lines acc w e w' :
  load_lines lines acc w = (Raise e, w') → e = ValueError.
Proof.
  revert acc w. induction lines as [|line lines IH]; intros acc w; simpl.
  - by unfold ret.
  - unfold bind. destruct (decide (long_enough line)) as [Hl | Hl].
    + pose proof (load_line_long line acc w Hl) as Hline.
      destruct (has_int_id line).
      * destruct Hline as (t & w1 & H1). rewrite H1. apply IH.
      * rewrite Hline. by intros [= <- _].
    + rewrite load_line_short by done. apply IH.
Qed.

Lemma load_tasks_present self w content :
  fs w !! filename self = Some content →
  FileTaskStorage_load_tasks self w = load_lines (file_lines content) [] w.
Proof.
  intros Hf. unfold FileTaskStorage_load_tasks, try_except, bind, open_read.
  rewrite Hf. fold (file_lines content).
  destruct (load_lines (file_lines content) [] w) as [[l|e] w1] eqn:Hl;
    [done |].
  apply load_lines_raise in Hl as ->. done.
Qed.
End loading.

(** C8, as amended.  Whatever the file holds, [load_tasks] behaves as the
    loop run on the lines of four fields or more alone: a line that splits
    into fewer than four fields leaves the loaded list and the world as they
    are and raises nothing.  When the id field of every remaining line is an
    integer literal, the load returns one task per remaining line, built
    from it, in file order; otherwise it raises [ValueError]. *)
Theorem load_tasks_skips_short_lines (self : FileTaskStorage) (w : World)
    (content : string) :
  fs w !! filename self = Some content →
  let kept := filter long_enough (file_lines content) in
  FileTaskStorage_load_tasks self w = load_lines kept [] w
  ∧ (∀ line acc w1,
       ¬ long_enough line → load_line line acc w1 = (Ok acc, w1))
  ∧ if forallb has_int_id kept
    then ∃ ts w', FileTaskStorage_load_tasks self w = (Ok ts, w')
                  ∧ Forall2 yields kept ts
    else ∃ w', FileTaskStorage_load_tasks self w = (Raise ValueError, w').
Proof.
  intros Hf kept. rewrite (load_tasks_present self w content Hf).
  rewrite load_lines_filter. fold kept.
  split; [done |]. split; [apply load_line_short |].
  apply (load_lines_long kept [] w).
  apply Forall_forall. intros line Hline.
  by apply list_elem_of_filter in Hline as [? _].
Qed.

Lemma load_tasks_skips_short_lines_witness :
  let self := mkFileTaskStorage "tasks.txt" in
  let w := mkWorld {[ "tasks.txt" := "abc
7,Pay rent,2024-02-01,True,high
x,y
" ]} [] in
  ∃ ts w',
    FileTaskStorage_load_tasks self w = (Ok ts, w')
    ∧ Forall2 yields ["7,Pay rent,2024-02-01,True,high
"] ts.
Proof.
  intros self w.
  exact (proj2 (proj2 (load_tasks_skips_short_lines self w _ eq_refl))).
Defined.

(** C8 fails as stated: a line of four fields whose first field is no
    integer is not skipped, and the load raises [ValueError] instead of
    returning the tasks of the remaining lines. *)
Lemma load_tasks_raises_on_bad_id :
  let self := mkFileTaskStorage "tasks.txt" in
  let w := mkWorld {[ "tasks.txt" := "1,Write spec,None,False,high
abc,Buy milk,None,False
" ]} [] in
  file_lines "1,Write spec,None,False,high
abc,Buy milk,None,False
" = ["1,Write spec,None,False,high
"; "abc,Buy milk,None,False
"]
  ∧ field_count "abc,Buy milk,None,False
" = 4%nat
  ∧ FileTaskStorage_load_tasks self w = (Raise ValueError, w)
  ∧ ∀ ts w', FileTaskStorage_load_tasks self w ≠ (Ok ts, w').
Proof.
  repeat split; try reflexivity. intros ts w'. vm_compute. intros [=].
Qed.



(** C9.  When the backing file does not exist, [load_tasks] returns the
    empty list without raising and only prints the note that it starts
    fresh; a manager built over it has no tasks and [next_id] 1. *)
Theorem load_tasks_missing_file (self : FileTaskStorage) (w : World) :
  fs w !! filename self = None →
  FileTaskStorage_load_tasks self w
  = (Ok [], say (MsgStartingFresh (filename self)) w)
  ∧ TaskManager_init self w
    = (Ok (mkTaskManager self [] 1),
       say (MsgLoaded 0 1) (say (MsgStartingFresh (filename self)) w)).
Proof.
  intros Hf.
  assert (Hload : FileTaskStorage_load_tasks self w
    = (Ok [], say (MsgStartingFresh (filename self)) w)).
  { unfold FileTaskStorage_load_tasks, try_except, bind, open_read.
    by rewrite Hf. }
  split; [done |].
  unfold TaskManager_init, bind. simpl. by rewrite Hload.
Qed.

Lemma load_tasks_missing_file_witness :
  let self := mkFileTaskStorage "my_tasks.txt" in
  let w := mkWorld ∅ [] in
  FileTaskStorage_load_tasks self w
  = (Ok [], mkWorld ∅ [MsgStartingFresh "my_tasks.txt"])
  ∧ TaskManager_init self w
    = (Ok (mkTaskManager self [] 1),
       mkWorld ∅ [MsgStartingFresh "my_tasks.txt"; MsgLoaded 0 1]).
Proof.
  intros self w. exact (load_tasks_missing_file self w eq_refl).
Defined.

(** * Task construction *)

(** C6.  [Task.__init__] never raises on a priority that is absent or a
    text.  A text whose lower-case form is low, medium or high is stored in
    that lower-case form; every other input, the absent and the empty one
    included, is stored as "medium"; so the stored priority is always one
    of the three. *)
Theorem Task_init_priority (task_id : Z) (descr : string)
    (due : option string) (done : bool) (given : option string) (w : World) :
  ∃ t w',
    Task_init task_id descr due done given w = (Ok t, w')
    ∧ match given with
      | Some s =>
          if bool_decide (Py.lower s ∈ valid_priorities)
          then priority t = Py.lower s
          else priority t = "medium"
      | None => priority t = "medium"
      end
    ∧ (given = Some EmptyString → priority t = "medium")
    ∧ priority t ∈ valid_priorities.
Proof.
  unfold Task_init. destruct given as [s|]; simpl.
  - destruct s as [|c s]; simpl.
    + run. eexists _, _. split; [reflexivity |]. simpl.
      repeat split; try done. elem_of_list.
    + run. destruct (bool_decide _) eqn:Hv; simpl.
      * apply bool_decide_eq_true in Hv.
        eexists _, _. split; [reflexivity |]. simpl. repeat split; done.
      * eexists _, _. split; [reflexivity |]. simpl.
        repeat split; try done. elem_of_list.
  - run. eexists _, _. split; [reflexivity |]. simpl.
    repeat split; try done. elem_of_list.
Qed.

(** * The manager *)

Section manager.
Context {S : Type} `{TaskStorage S}.

Lemma add_task_run m w descr due given task w1 :
  Task_init (next_id m) descr due false given w = (Ok task, w1) →
  add_task descr due given (m, w)
  = match save_tasks (storage m) (tasks m ++ [task]) w1 with
    | (Ok _, w2) =>
        match given with
        | Some p => (Ok task, (grown m task, say (MsgAdded descr p) w2))
        | None => (Raise AttributeError, (grown m task, w2))
        end
    | (Raise e, w2) => (Raise e, (grown m task, w2))
    end.
Proof.
  intros Hinit. unfold add_task. run. rewrite Hinit. simpl.
  destruct (save_tasks _ _ _) as [[u|e] w2]; simpl; [| done].
  by destruct given.
Qed.

Lemma scan_spec task_id ts start :
  match scan task_id ts start with
  | Some (pos, task) =>
      ∃ i, pos = (start + i)%nat ∧ ts !! i = Some task ∧ id task = task_id
           ∧ ∀ j t, (j < i)%nat → ts !! j = Some t → id t ≠ task_id
  | None => ∀ t, t ∈ ts → id t ≠ task_id
  end.
Proof.
  revert start. induction ts as [|t ts IH]; intros start; simpl.
  - intros t Ht. by apply elem_of_nil in Ht.
  - case_bool_decide as Hid.
    + exists 0%nat. repeat split; [lia | done | lia].
    + specialize (IH (Datatypes.S start)).
      destruct (scan task_id ts (Datatypes.S start)) as [[pos task]|].
      * destruct IH as (i & -> & Hi & Htask & Hfirst).
        exists (Datatypes.S i). repeat split; [lia | done | done |].
        intros [|j] t' Hj Ht'; simpl in Ht'.
        -- by injection Ht' as <-.
        -- apply (Hfirst j); [lia | done].
      * intros t' [-> | Ht']%elem_of_cons; [done | by apply IH].
Qed.

Lemma mark_task_completed_run m w task_id :
  mark_task_completed task_id (m, w)
  = match get_task_by_id m task_id with
    | Some (pos, task) =>
        let task' := set_completed task true in
        let m' := updated m pos task' in
        match save_tasks (storage m) (tasks m')
                (say (MsgMarked (id task) (description task)) w) with
        | (Ok _, w2) => (Ok true, (m', w2))
        | (Raise e, w2) => (Raise e, (m', w2))
        end
    | None => (Ok false, (m, say (MsgNotFound task_id) w))
    end.
Proof.
  unfold mark_task_completed. run.
  destruct (get_task_by_id m task_id) as [[pos task]|]; simpl.
  - unfold mark_completed. run.
    by destruct (save_tasks _ _ _) as [[u|e] w2].
  - by destruct m.
Qed.
End manager.

Lemma FileTaskStorage_save_tasks_run (self : FileTaskStorage) ts w :
  FileTaskStorage_save_tasks self ts w
  = (Ok tt, say (MsgTasksSaved (filename self))
              (written (filename self) (file_text ts) w)).
Proof. reflexivity. Qed.




Lemma add_task_absent_run {S} `{TaskStorage S} (m : TaskManager S)
    (w : World) (descr : string) (due : option string) :
  let task := mkTask (next_id m) descr due false "medium" in
  Task_init (next_id m) descr due false None w = (Ok task, w)
  ∧ ∀ u w2,
      save_tasks (storage m) (tasks m ++ [task]) w = (Ok u, w2) →
      add_task descr due None (m, w)
      = (Raise AttributeError, (grown m task, w2)).
Proof.
  intros task. split; [done |]. intros u w2 Hsave.
  rewrite (add_task_run m w descr due None task w eq_refl).
  by rewrite Hsave.
Qed.

(** C10, as amended.  A call of [add_task] with an absent priority builds
    the task with priority "medium", appends it, raises [next_id] and hands
    the grown collection to [save_tasks]; when that returns, the call
    raises [AttributeError] (from [.upper()] on [None] in the confirmation
    message) instead of returning the task, and the manager stays grown.
    Over the file storage the save always returns, so the call always ends
    in that exception, with the grown collection in the file. *)
Theorem add_task_absent_priority :
  (∀ S (TS : TaskStorage S) (m : TaskManager S) (w : World)
     (descr : string) (due : option string),
     let task := mkTask (next_id m) descr due false "medium" in
     Task_init (next_id m) descr due false None w = (Ok task, w)
     ∧ ∀ u w2,
         save_tasks (storage m) (tasks m ++ [task]) w = (Ok u, w2) →
         add_task descr due None (m, w)
         = (Raise AttributeError, (grown m task, w2)))
  ∧ (∀ (m : TaskManager FileTaskStorage) (w : World)
       (descr : string) (due : option string),
       let task := mkTask (next_id m) descr due false "medium" in
       ∃ w',
         add_task descr due None (m, w)
         = (Raise AttributeError, (grown m task, w'))
         ∧ priority task = "medium"
         ∧ tasks (grown m task) = tasks m ++ [task]
         ∧ fs w' !! filename (storage m)
           = Some (file_text (tasks m ++ [task]))).
Proof.
  split.
  - intros S TS m w descr due. apply add_task_absent_run.
  - intros m w descr due task. eexists. split.
    + apply (proj2 (add_task_absent_run m w descr due) tt). reflexivity.
    + repeat split. apply lookup_insert_eq.
Qed.

Lemma add_task_absent_priority_witness :
  let self := mkFileTaskStorage "my_tasks.txt" in
  let m := mkTaskManager self [] 1 in
  let task := mkTask 1 "Clean desk" None false "medium" in
  add_task "Clean desk" None None (m, mkWorld ∅ [])
  = (Raise AttributeError,
     (mkTaskManager self [task] 2,
      say (MsgTasksSaved "my_tasks.txt")
        (written "my_tasks.txt" (file_text [task]) (mkWorld ∅ [])))).
Proof.
  intros self m task.
  exact (proj2 (proj1 add_task_absent_priority _ _ m (mkWorld ∅ [])
                  "Clean desk" None) tt _ eq_refl).
Defined.

(** C10 fails as stated: the exception raised is [AttributeError], not
    [TypeError]. *)
Lemma add_task_absent_priority_not_TypeError :
  let self := mkFileTaskStorage "my_tasks.txt" in
  let m := mkTaskManager self [] 1 in
  (add_task "Clean desk" None None (m, mkWorld ∅ [])).1
  = Raise AttributeError
  ∧ (add_task "Clean desk" None None (m, mkWorld ∅ [])).1 ≠ Raise TypeError.
Proof. split; [reflexivity | intros [=]]. Qed.




(** * The invariant of the manager *)

Section invariant.
Context {S : Type} `{TaskStorage S}.

Lemma max_id_bound (ts : list Task) :
  0 ≤ max_id ts ∧ Forall (λ i, i ≤ max_id ts) (ids ts).
Proof.
  unfold max_id, ids. induction ts as [|t ts [IH0 IH]]; csimpl.
  - split; [lia | constructor].
  - split; [lia |]. constructor; [lia |].
    eapply Forall_impl; [exact IH |]. simpl. lia.
Qed.

Lemma init_next_id st w m0 w0 :
  TaskManager_init st w = (Ok m0, w0) →
  Forall (λ i, i < next_id m0) (ids (tasks m0)).
Proof.
  unfold TaskManager_init. run.
  destruct (load_tasks st w) as [[ts|e] w1]; [| done].
  simpl. intros [= <- _]. simpl. destruct ts as [|t ts]; [constructor |].
  eapply Forall_impl; [apply max_id_bound |]. simpl. lia.
Qed.

Lemma ids_updated (ts : list Task) pos task :
  ts !! pos = Some task →
  ids (<[pos := set_completed task true]> ts) = ids ts.
Proof.
  intros Hpos. unfold ids. rewrite list_fmap_insert. simpl.
  apply list_insert_id. by rewrite list_lookup_fmap, Hpos.
Qed.

(** What the two mutating methods do to the ids and to [next_id]. *)
Lemma add_task_ids descr due given m w r m' w' :
  add_task descr due given (m, w) = (r, (m', w')) →
  ids (tasks m') = ids (tasks m) ++ [next_id m]
  ∧ next_id m' = next_id m + 1.
Proof.
  destruct (Task_init_fields (next_id m) descr due false given w)
    as (task & w1 & Hinit & Hid & _).
  rewrite (add_task_run m w descr due given task w1 Hinit).
  assert (Hg : ids (tasks (grown m task)) = ids (tasks m) ++ [next_id m]).
  { unfold ids. simpl. by rewrite fmap_app, <- Hid. }
  destruct (save_tasks _ _ _) as [[u|e] w2]; [destruct given |];
    intros [= _ <- _]; done.
Qed.

Lemma mark_task_completed_ids task_id m w r m' w' :
  mark_task_completed task_id (m, w) = (r, (m', w')) →
  ids (tasks m') = ids (tasks m) ∧ next_id m' = next_id m.
Proof.
  rewrite mark_task_completed_run. unfold get_task_by_id.
  pose proof (scan_spec task_id (tasks m) 0) as Hscan.
  destruct (scan task_id (tasks m) 0) as [[pos task]|].
  - destruct Hscan as (i & -> & Hi & _). simpl.
    destruct (save_tasks _ _ _) as [[u|e] w2];
      intros [= _ <- _]; simpl; by rewrite ids_updated.
  - by intros [= _ <- _].
Qed.

Lemma reachable_ids m0 m :
  reachable_from m0 m →
  Forall (λ i, i < next_id m0) (ids (tasks m0)) →
  Forall (λ i, i < next_id m) (ids (tasks m))
  ∧ (NoDup (ids (tasks m0)) → NoDup (ids (tasks m))).
Proof.
  intros Hreach H0. induction Hreach as
    [| m descr due given w r m' w' _ [IHlt IHnd] Hadd
     | m task_id w r m' w' _ [IHlt IHnd] Hmark].
  - done.
  - apply add_task_ids in Hadd as [-> ->]. split.
    + apply Forall_app. split.
      * eapply Forall_impl; [exact IHlt |]. simpl. lia.
      * repeat constructor. lia.
    + intros Hnd. apply NoDup_app. repeat split.
      * by apply IHnd.
      * intros i Hi ->%list_elem_of_singleton.
        rewrite Forall_forall in IHlt. specialize (IHlt _ Hi). lia.
      * apply NoDup_singleton.
  - apply mark_task_completed_ids in Hmark as [-> ->]. done.
Qed.
End invariant.

(** C2, as amended.  In every state a manager reaches from its construction
    over any storage by calls of [add_task] and [mark_task_completed],
    [next_id] is strictly greater than the id of every task; and the ids are
    pairwise distinct whenever the ids of the tasks loaded at construction
    were. *)
Theorem manager_invariant {S} `{TaskStorage S} (st : S) (w w0 : World)
    (m0 m : TaskManager S) :
  TaskManager_init st w = (Ok m0, w0) →
  reachable_from m0 m →
  (∀ t, t ∈ tasks m → id t < next_id m)
  ∧ (NoDup (ids (tasks m0)) → NoDup (ids (tasks m))).
Proof.
  intros Hinit Hreach.
  destruct (reachable_ids m0 m Hreach (init_next_id st w m0 w0 Hinit))
    as [Hlt Hnd].
  split; [| done]. intros t Ht.
  rewrite Forall_forall in Hlt. apply Hlt. unfold ids.
  by apply list_elem_of_fmap_2.
Qed.

Lemma manager_invariant_witness :
  let self := mkFileTaskStorage "my_tasks.txt" in
  let w := mkWorld {[ "my_tasks.txt" := "4,Pay rent,None,False,high
" ]} [] in
  let m0 := mkTaskManager self [mkTask 4 "Pay rent" None false "high"] 5 in
  let m1 := (add_task "Clean desk" None (Some "low") (m0, w)).2.1 in
  let m2 := (mark_task_completed 4 (m1, w)).2.1 in
  (∀ t, t ∈ tasks m2 → id t < next_id m2)
  ∧ (NoDup (ids (tasks m0)) → NoDup (ids (tasks m2))).
Proof.
  intros self w m0 m1 m2.
  assert (Hinit : TaskManager_init self w = (Ok m0, say (MsgLoaded 1 5) w))
    by reflexivity.
  apply (manager_invariant self w (say (MsgLoaded 1 5) w) m0 m2 Hinit).
  apply (reach_mark m0 m1 4 w (Ok true) m2
           (mark_task_completed 4 (m1, w)).2.2).
  - apply (reach_add m0 m0 "Clean desk" None (Some "low") w
             (add_task "Clean desk" None (Some "low") (m0, w)).1 m1
             (add_task "Clean desk" None (Some "low") (m0, w)).2.2).
    + apply reach_start.
    + reflexivity.
  - reflexivity.
Defined.

(** C2 fails as stated: a backing file may hold the same id twice, and the
    manager built over it starts with two tasks of that id. *)
Lemma duplicate_ids_after_construction :
  let self := mkFileTaskStorage "my_tasks.txt" in
  let w := mkWorld {[ "my_tasks.txt" := "1,Write spec,None,False,high
1,Clean desk,None,False,low
" ]} [] in
  ∃ m0 w0,
    TaskManager_init self w = (Ok m0, w0)
    ∧ reachable_from m0 m0
    ∧ ids (tasks m0) = [1; 1]
    ∧ ¬ NoDup (ids (tasks m0)).
Proof.
  intros self w.
  exists (mkTaskManager self
            [mkTask 1 "Write spec" None false "high";
             mkTask 1 "Clean desk" None false "low"] 2),
    (say (MsgLoaded 2 2) w).
  split; [reflexivity |]. split; [apply reach_start |].
  split; [reflexivity |]. simpl.
  intros Hnd. apply NoDup_cons in Hnd as [Hnotin _].
  apply Hnotin. elem_of_list.
Qed.

(** * Sorting *)

Section sorted_facts.
Context {A K : Type} `{EqDecision K} (lt : K → K → bool) (key : A → K).
Hypothesis lt_irrefl : ∀ a, lt a a = false.
Hypothesis lt_asym : ∀ a b, lt a b = true → lt b a = false.
Hypothesis le_trans :
  ∀ a b c, lt b a = false → lt c b = false → lt c a = false.
Hypothesis lt_total : ∀ a b, lt a b = false → lt b a = false → a = b.

Abbreviation insert := (insert_by lt key).
Abbreviation sort := (sorted lt key).
Abbreviation le_key := (le_key lt key).
Abbreviation with_key k := (filter (λ y, key y = k)).

Lemma insert_by_perm x l : insert x l ≡ₚ x :: l.
Proof.
  induction l as [|y l IH]; simpl; [done |].
  destruct (lt (key y) (key x)); [| done].
  rewrite IH. apply perm_swap.
Qed.

Lemma sorted_perm l : sort l ≡ₚ l.
Proof.
  induction l as [|x l IH]; simpl; [done |].
  by rewrite insert_by_perm, IH.
Qed.

Lemma insert_by_sorted x l :
  StronglySorted le_key l → StronglySorted le_key (insert x l).
Proof.
  induction l as [|y l IH]; simpl; intros Hl.
  - repeat constructor.
  - apply StronglySorted_cons in Hl as [Hy Hl].
    destruct (lt (key y) (key x)) eqn:Hyx.
    + apply StronglySorted_cons. split; [| by apply IH].
      rewrite insert_by_perm. constructor; [| done].
      unfold le_key. by apply lt_asym.
    + apply StronglySorted_cons. split.
      * constructor; [done |].
        eapply Forall_impl; [exact Hy |]. simpl. intros z Hz.
        unfold le_key in *. by apply (le_trans _ (key y)).
      * by apply StronglySorted_cons.
Qed.

Lemma sorted_sorted l : StronglySorted le_key (sort l).
Proof.
  induction l as [|x l IH]; simpl; [constructor |].
  by apply insert_by_sorted.
Qed.

Lemma insert_by_filter x l k : with_key k (insert x l) = with_key k (x :: l).
Proof.
  induction l as [|y l IH]; simpl; [done |].
  destruct (lt (key y) (key x)) eqn:Hyx; [| done].
  rewrite (filter_cons _ y), IH, !filter_cons.
  destruct (decide (key y = k)) as [Hy | Hy]; [| done].
  destruct (decide (key x = k)) as [Hx | Hx]; [| done].
  rewrite Hy, Hx, lt_irrefl in Hyx. done.
Qed.

Lemma sorted_stable l k : with_key k (sort l) = with_key k l.
Proof.
  induction l as [|x l IH]; simpl; [done |].
  by rewrite insert_by_filter, !filter_cons, IH.
Qed.

Lemma StronglySorted_lookup (R : A → A → Prop) l i j a b :
  StronglySorted R l → (i < j)%nat →
  l !! i = Some a → l !! j = Some b → R a b.
Proof.
  intros Hl. revert i j. induction Hl as [|x l Hl IH Hx]; intros i j Hij.
  - done.
  - destruct j as [|j]; [lia |]. destruct i as [|i]; simpl.
    + intros [= <-] Hb. rewrite Forall_forall in Hx.
      apply Hx. by eapply list_elem_of_lookup_2.
    + apply IH. lia.
Qed.

(** A sorted list is determined by its sub-lists of equal keys: any stable
    sort returns the list that [sorted] returns. *)
Lemma stable_sorted_unique l1 l2 :
  StronglySorted le_key l1 → StronglySorted le_key l2 →
  (∀ k, with_key k l1 = with_key k l2) → l1 = l2.
Proof.
  intros H1. revert l2. induction H1 as [|x l1 H1 IH Hx]; intros l2 H2 Heq.
  - destruct l2 as [|y l2]; [done |].
    specialize (Heq (key y)). rewrite filter_cons_True in Heq by done.
    done.
  - destruct l2 as [|y l2].
    { specialize (Heq (key x)). by rewrite filter_cons_True in Heq. }
    apply StronglySorted_cons in H2 as [Hy H2].
    assert (Hxy : key y = key x).
    { apply lt_total.
      - assert (Hin : y ∈ x :: l1).
        { eapply (list_elem_of_filter (λ z, key z = key y)).
          rewrite Heq, filter_cons_True by done. apply list_elem_of_here. }
        apply elem_of_cons in Hin as [-> | Hin]; [apply lt_irrefl |].
        rewrite Forall_forall in Hx. by apply (Hx y).
      - assert (Hin : x ∈ y :: l2).
        { eapply (list_elem_of_filter (λ z, key z = key x)).
          rewrite <- Heq, filter_cons_True by done. apply list_elem_of_here. }
        apply elem_of_cons in Hin as [<- | Hin]; [apply lt_irrefl |].
        rewrite Forall_forall in Hy. by apply (Hy x). }
    pose proof (Heq (key x)) as Hk.
    rewrite !filter_cons_True in Hk by done. injection Hk as <- Hk.
    f_equal. apply IH; [done |]. intros k.
    destruct (decide (key x = k)) as [<- | Hne]; [done |].
    specialize (Heq k). by rewrite !filter_cons_False in Heq.
Qed.

Lemma sorted_unique l l' :
  StronglySorted le_key l' → (∀ k, with_key k l' = with_key k l) →
  l' = sort l.
Proof.
  intros Hs Hst. apply stable_sorted_unique; [done | apply sorted_sorted |].
  intros k. by rewrite sorted_stable.
Qed.
End sorted_facts.

(** * Listing *)

Lemma key_lt_irrefl a : key_lt a a = false.
Proof.
  unfold key_lt. rewrite bool_decide_true by done. apply Z.ltb_irrefl.
Qed.

Lemma key_lt_asym a b : key_lt a b = true → key_lt b a = false.
Proof.
  destruct a as [[] x], b as [[] y]; unfold key_lt; simpl; try done;
    rewrite Z.ltb_lt, Z.ltb_ge; lia.
Qed.

Lemma key_le_trans a b c :
  key_lt b a = false → key_lt c b = false → key_lt c a = false.
Proof.
  destruct a as [[] x], b as [[] y], c as [[] z]; unfold key_lt; simpl;
    try done; rewrite !Z.ltb_ge; lia.
Qed.

Lemma key_lt_total a b : key_lt a b = false → key_lt b a = false → a = b.
Proof.
  destruct a as [[] x], b as [[] y]; unfold key_lt; simpl; try done;
    rewrite !Z.ltb_ge; intros; f_equal; lia.
Qed.

Lemma key_le_listing (a b : Task) :
  key_le (sort_key a) (sort_key b) → in_listing_order a b.
Proof.
  unfold key_le, key_lt, sort_key, in_listing_order. simpl.
  destruct (completed a), (completed b); simpl; try done;
    rewrite ?Z.ltb_ge; intros; first [left; done | right; split; [done | lia]].
Qed.

Lemma priority_weight_other p :
  p ∉ valid_priorities → priority_weight p = 2.
Proof.
  unfold valid_priorities, priority_weight, priority_order.
  rewrite !not_elem_of_cons. intros (Hl & Hm & Hh & _).
  by rewrite !lookup_insert_ne, lookup_empty.
Qed.

(** The listing order is the only one a stable sort by this key allows. *)
Lemma listing_order_determined (ts shown : list Task) :
  StronglySorted (le_key key_lt sort_key) shown →
  (∀ k, filter (λ t, sort_key t = k) shown
        = filter (λ t, sort_key t = k) ts) →
  shown = sorted key_lt sort_key ts.
Proof.
  apply sorted_unique.
  - apply key_lt_irrefl.
  - apply key_lt_asym.
  - apply key_le_trans.
  - apply key_lt_total.
Qed.

Lemma displayed_tasks ts : displayed (MsgTask <$> ts) = ts.
Proof.
  unfold displayed. induction ts as [|t ts IH]; csimpl; [done |].
  by rewrite IH.
Qed.

Lemma print_tasks_run ts w :
  print_tasks ts w = (Ok tt, mkWorld (fs w) (stdout w ++ (MsgTask <$> ts))).
Proof.
  revert w. induction ts as [|t ts IH]; intros w; csimpl.
  - unfold ret. rewrite app_nil_r. by destruct w.
  - unfold bind, print. rewrite IH. simpl. by rewrite <- app_assoc.
Qed.

(** C5.  [list_tasks] displays every task of the collection once, in the
    order of a stable sort by the key (completed, minus weight) with the
    weights high 3, medium 2, low 1 and 2 for anything else: of two tasks
    displayed, the earlier one is incomplete and the later one completed, or
    both have the same completion status and the earlier one weighs at
    least as much; and the tasks of one key are displayed in the order they
    have in the collection. *)
Theorem list_tasks_order {S} `{TaskStorage S} (m : TaskManager S)
    (w : World) :
  ∃ out,
    list_tasks (m, w) = (Ok tt, (m, mkWorld (fs w) (stdout w ++ out)))
    ∧ displayed out ≡ₚ tasks m
    ∧ (∀ i j a b,
         (i < j)%nat → displayed out !! i = Some a →
         displayed out !! j = Some b → in_listing_order a b)
    ∧ (∀ k, filter (λ t, sort_key t = k) (displayed out)
            = filter (λ t, sort_key t = k) (tasks m))
    ∧ priority_weight "high" = 3 ∧ priority_weight "medium" = 2
    ∧ priority_weight "low" = 1
    ∧ (∀ p, p ∉ valid_priorities → priority_weight p = 2).
Proof.
  assert (Hshown : ∃ out,
    list_tasks (m, w) = (Ok tt, (m, mkWorld (fs w) (stdout w ++ out)))
    ∧ displayed out = sorted key_lt sort_key (tasks m)).
  { unfold list_tasks. run. destruct (tasks m) as [|t ts] eqn:Hts.
    - exists [MsgHeader None; MsgNoTasks None]. split; [| done].
      unfold say. simpl. rewrite <- app_assoc. by destruct m.
    - exists ([MsgHeader None]
              ++ (MsgTask <$> sorted key_lt sort_key (t :: ts))
              ++ [MsgFooter]).
      split.
      + rewrite print_tasks_run. unfold say. simpl.
        rewrite <- !app_assoc. by destruct m.
      + unfold displayed. rewrite !omap_app. simpl.
        rewrite app_nil_r. apply displayed_tasks. }
  destruct Hshown as (out & Hrun & Hout). exists out. rewrite Hout.
  split; [done |]. split; [apply sorted_perm |]. split.
  - intros i j a b Hij Ha Hb. apply key_le_listing.
    eapply (StronglySorted_lookup (le_key key_lt sort_key)); try done.
    apply sorted_sorted; [apply key_lt_asym | apply key_le_trans].
  - split; [apply sorted_stable, key_lt_irrefl |].
    repeat split; try done. apply priority_weight_other.
Qed.

Lemma list_tasks_order_witness :
  let self := mkFileTaskStorage "my_tasks.txt" in
  let t1 := mkTask 1 "Write spec" (Some "2024-01-01") true "high" in
  let t2 := mkTask 2 "Clean desk" None false "low" in
  let t3 := mkTask 3 "Pay rent" None false "high" in
  let t4 := mkTask 4 "Water plants" None false "low" in
  let m := mkTaskManager self [t1; t2; t3; t4] 5 in
  ∃ out,
    list_tasks (m, mkWorld ∅ []) = (Ok tt, (m, mkWorld ∅ out))
    ∧ displayed out = [t3; t2; t4; t1]
    ∧ in_listing_order t3 t2 ∧ in_listing_order t4 t1.
Proof.
  intros self t1 t2 t3 t4 m.
  destruct (list_tasks_order m (mkWorld ∅ []))
    as (out & Hrun & _ & Horder & _).
  exists out. split; [exact Hrun |].
  assert (Hout : out = [MsgHeader None; MsgTask t3; MsgTask t2; MsgTask t4;
                        MsgTask t1; MsgFooter]).
  { injection Hrun as Hout. exact (eq_sym Hout). }
  split; [rewrite Hout; reflexivity |]. split.
  - apply (Horder 0%nat 1%nat); [lia | rewrite Hout; reflexivity ..].
  - apply (Horder 2%nat 3%nat); [lia | rewrite Hout; reflexivity ..].
Defined.

Lemma Task_init_priority_witness :
  ∃ t w',
    Task_init 1 "Write spec" None false (Some "HIGH") (mkWorld ∅ [])
    = (Ok t, w')
    ∧ priority t = "high" ∧ priority t ∈ valid_priorities.
Proof.
  destruct (Task_init_priority 1 "Write spec" None false (Some "HIGH")
              (mkWorld ∅ []))
    as (t & w' & Hrun & Hp & _ & Hvalid).
  exists t, w'. split; [exact Hrun |]. split; [exact Hp | exact Hvalid].
Defined.


(** * Further properties of the code *)

(** ** Construction of a task, in full *)

Lemma Task_init_cases i d due c given w :
  Task_init i d due c given w
  = (Ok (mkTask i d due c (stored_priority given)),
     if unknown_priority given then say (MsgInvalidPriority given) w else w)
  ∧ stored_priority given ∈ valid_priorities.
Proof.
  unfold Task_init, stored_priority, unknown_priority.
  destruct given as [s|]; simpl.
  - destruct s as [|a s]; simpl.
    + run. split; [done | elem_of_list].
    + run. destruct (bool_decide _) eqn:Hv; simpl.
      * apply bool_decide_eq_true in Hv. done.
      * split; [done | elem_of_list].
  - run. split; [done | elem_of_list].
Qed.

(** ** The two mutating methods, step by step *)

Lemma add_task_step {S} `{TaskStorage S} descr due given
    (m : TaskManager S) w r m' w' :
  add_task descr due given (m, w) = (r, (m', w')) →
  m' = grown m (mkTask (next_id m) descr due false (stored_priority given)).
Proof.
  destruct (Task_init_cases (next_id m) descr due false given w)
    as [Hinit _].
  rewrite (add_task_run m w descr due given _ _ Hinit).
  destruct (save_tasks _ _ _) as [[u|e] w2]; [destruct given |];
    by intros [= _ <- _].
Qed.

Lemma mark_task_completed_step {S} `{TaskStorage S} task_id
    (m : TaskManager S) w r m' w' :
  mark_task_completed task_id (m, w) = (r, (m', w')) →
  match get_task_by_id m task_id with
  | Some (pos, task) =>
      m' = updated m pos (set_completed task true) ∧ r ≠ Ok false
  | None => m' = m ∧ r = Ok false
  end.
Proof.
  rewrite mark_task_completed_run.
  destruct (get_task_by_id m task_id) as [[pos task]|]; simpl.
  - destruct (save_tasks _ _ _) as [[u|e] w2]; by intros [= <- <- _].
  - by intros [= <- <- _].
Qed.

Lemma get_task_by_id_spec {S} (m : TaskManager S) task_id :
  match get_task_by_id m task_id with
  | Some (pos, task) =>
      tasks m !! pos = Some task ∧ id task = task_id
      ∧ ∀ j t, (j < pos)%nat → tasks m !! j = Some t → id t ≠ task_id
  | None => ∀ t, t ∈ tasks m → id t ≠ task_id
  end.
Proof.
  unfold get_task_by_id.
  pose proof (scan_spec task_id (tasks m) 0) as Hscan.
  destruct (scan task_id (tasks m) 0) as [[pos task]|]; [| done].
  by destruct Hscan as (i & -> & Hi & Hid & Hfirst).
Qed.

Lemma scan_app task_id ts t start :
  scan task_id (ts ++ [t]) start
  = match scan task_id ts start with
    | Some found => Some found
    | None => scan task_id [t] (start + length ts)
    end.
Proof.
  revert start. induction ts as [|a ts IH]; intros start.
  - simpl length. by rewrite Nat.add_0_r.
  - change (scan task_id ((a :: ts) ++ [t]) start)
      with (if bool_decide (id a = task_id) then Some (start, a)
            else scan task_id (ts ++ [t]) (Datatypes.S start)).
    change (scan task_id (a :: ts) start)
      with (if bool_decide (id a = task_id) then Some (start, a)
            else scan task_id ts (Datatypes.S start)).
    case_bool_decide; [done |]. rewrite IH. simpl length.
    by rewrite Nat.add_succ_r.
Qed.

Lemma scan_insert task_id ts start pos task task' :
  scan task_id ts start = Some (pos, task) →
  id task' = task_id →
  ∃ i, pos = (start + i)%nat
       ∧ scan task_id (<[i := task']> ts) start = Some (pos, task').
Proof.
  intros Hscan Hid. revert start Hscan.
  induction ts as [|a ts IH]; intros start; simpl; [done |].
  case_bool_decide as Ha.
  - intros [= <- <-]. exists 0%nat. simpl.
    rewrite bool_decide_true by done. by rewrite Nat.add_0_r.
  - intros (i & -> & Hi)%IH. exists (Datatypes.S i). simpl.
    rewrite bool_decide_false by done. split; [lia | done].
Qed.

Lemma max_id_app ts t : max_id (ts ++ [t]) = Z.max (max_id ts) (id t).
Proof.
  unfold max_id. induction ts as [|a ts IH]; csimpl; [lia |].
  rewrite IH. lia.
Qed.

(** X1.  After construction the manager holds exactly the tasks the storage
    returned, and [next_id] is the least integer from 1 on that is greater
    than every loaded id: it is at least 1, greater than every id, and
    either 1 or one more than the id of some loaded task. *)
Theorem TaskManager_init_next_id {S} `{TaskStorage S} (st : S)
    (w w0 : World) (m0 : TaskManager S) :
  TaskManager_init st w = (Ok m0, w0) →
  storage m0 = st
  ∧ (∃ w1, load_tasks st w = (Ok (tasks m0), w1)
           ∧ w0 = say (MsgLoaded (length (tasks m0)) (next_id m0)) w1)
  ∧ 1 ≤ next_id m0
  ∧ (∀ t, t ∈ tasks m0 → id t < next_id m0)
  ∧ (next_id m0 = 1 ∨ ∃ t, t ∈ tasks m0 ∧ id t = next_id m0 - 1).
Proof.
  unfold TaskManager_init. run.
  destruct (load_tasks st w) as [[ts|e] w1]; [| done].
  simpl. intros [= <- <-]. simpl. split; [done |]. split; [eauto |].
  assert (Hmax : 0 ≤ max_id ts
                 ∧ (∀ t, t ∈ ts → id t ≤ max_id ts)
                 ∧ (max_id ts = 0 ∨ ∃ t, t ∈ ts ∧ id t = max_id ts)).
  { clear. unfold max_id.
    induction ts as [|a ts (IH0 & IHle & IHex)]; csimpl.
    - split; [lia |]. split; [| auto]. intros t Ht.
      by apply elem_of_nil in Ht.
    - split; [lia |]. split.
      + intros t [-> | Ht]%elem_of_cons; [lia |].
        specialize (IHle t Ht). lia.
      + destruct (Z.max_spec (id a) (foldr Z.max 0 (id <$> ts)))
          as [[_ ->] | [_ ->]].
        * destruct IHex as [? | (t & Ht & Hid)]; [by left |].
          right. exists t. split; [by apply list_elem_of_further | done].
        * right. exists a. split; [apply list_elem_of_here | done]. }
  destruct Hmax as (H0 & Hle & Hex).
  destruct ts as [|a ts]; simpl.
  - split; [lia |]. split; [| auto]. intros t Ht.
    by apply elem_of_nil in Ht.
  - split; [lia |]. split.
    + intros t Ht. specialize (Hle t Ht). lia.
    + destruct Hex as [Hz | (t & Ht & Hid)]; [left; lia |].
      right. exists t. split; [done | lia].
Qed.

Lemma TaskManager_init_next_id_witness :
  let self := mkFileTaskStorage "my_tasks.txt" in
  let w := mkWorld {[ "my_tasks.txt" := "7,Pay rent,None,False,high
3,Clean desk,None,True,low
" ]} [] in
  let m0 :=
    mkTaskManager self
      [mkTask 7 "Pay rent" None false "high";
       mkTask 3 "Clean desk" None true "low"] 8 in
  1 ≤ next_id m0
  ∧ (∀ t, t ∈ tasks m0 → id t < next_id m0)
  ∧ (next_id m0 = 1 ∨ ∃ t, t ∈ tasks m0 ∧ id t = next_id m0 - 1).
Proof.
  intros self w m0.
  assert (Hinit : TaskManager_init self w = (Ok m0, say (MsgLoaded 2 8) w))
    by reflexivity.
  exact (proj2 (proj2 (TaskManager_init_next_id self w _ m0 Hinit))).
Defined.

(** X2.  Whatever [add_task] returns or raises (a failing save and the
    missing [upper] of an absent priority included), the collection has
    grown by the new task and [next_id] by one: nothing is rolled back.
    When every id was below [next_id], a lookup of the new id finds the new
    task at the end of the collection; lookups of other ids are as before. *)
Theorem add_task_then_lookup {S} `{TaskStorage S} (m : TaskManager S)
    (w : World) descr due given r m' w' :
  (∀ t, t ∈ tasks m → id t < next_id m) →
  add_task descr due given (m, w) = (r, (m', w')) →
  let task := mkTask (next_id m) descr due false (stored_priority given) in
  tasks m' = tasks m ++ [task]
  ∧ next_id m' = next_id m + 1
  ∧ get_task_by_id m' (next_id m) = Some (length (tasks m), task)
  ∧ ∀ i, i ≠ next_id m → get_task_by_id m' i = get_task_by_id m i.
Proof.
  intros Hlt ->%add_task_step task. split; [done |]. split; [done |].
  unfold get_task_by_id. simpl. split.
  - rewrite scan_app.
    pose proof (scan_spec (next_id m) (tasks m) 0) as Hscan.
    destruct (scan (next_id m) (tasks m) 0) as [[pos t]|].
    + destruct Hscan as (i & _ & Hi & Hid & _).
      apply list_elem_of_lookup_2, Hlt in Hi. lia.
    + simpl. by rewrite bool_decide_true.
  - intros i Hi. rewrite scan_app.
    destruct (scan i (tasks m) 0); [done |]. simpl.
    by rewrite bool_decide_false.
Qed.

Lemma add_task_then_lookup_witness :
  let self := mkFileTaskStorage "my_tasks.txt" in
  let m := mkTaskManager self [mkTask 4 "Pay rent" None false "high"] 5 in
  let m' := (add_task "Clean desk" None None (m, mkWorld ∅ [])).2.1 in
  (add_task "Clean desk" None None (m, mkWorld ∅ [])).1
  = Raise AttributeError
  ∧ get_task_by_id m' 5
    = Some (1%nat, mkTask 5 "Clean desk" None false "medium")
  ∧ get_task_by_id m' 4
    = Some (0%nat, mkTask 4 "Pay rent" None false "high").
Proof.
  intros self m m'.
  destruct (add_task_then_lookup m (mkWorld ∅ []) "Clean desk" None None
              (add_task "Clean desk" None None (m, mkWorld ∅ [])).1 m'
              (add_task "Clean desk" None None (m, mkWorld ∅ [])).2.2)
    as (_ & _ & Hnew & Hold).
  - intros t Ht. apply elem_of_cons in Ht as [-> | Ht]; [reflexivity |].
    by apply elem_of_nil in Ht.
  - reflexivity.
  - split; [reflexivity |]. split; [exact Hnew |].
    rewrite (Hold 4); [reflexivity | discriminate].
Defined.

(** ** What a manager keeps over its life *)

Section history.
Context {S : Type} `{TaskStorage S}.

Lemma same_but_done_refl t : same_but_done t t.
Proof. by repeat split. Qed.

Lemma same_but_done_completed t0 t :
  same_but_done t0 t → same_but_done t0 (set_completed t true).
Proof. intros (? & ? & ? & ? & ?). by repeat split. Qed.

(** One call of a mutating method keeps every task in its place. *)
Lemma add_task_keeps descr due given (m : TaskManager S) w r m' w' i t :
  add_task descr due given (m, w) = (r, (m', w')) →
  tasks m !! i = Some t → tasks m' !! i = Some t.
Proof. intros ->%add_task_step Hi. simpl. by apply lookup_app_l_Some. Qed.

Lemma mark_task_completed_keeps task_id (m : TaskManager S) w r m' w' i t :
  mark_task_completed task_id (m, w) = (r, (m', w')) →
  tasks m !! i = Some t →
  tasks m' !! i = Some t
  ∨ (tasks m' !! i = Some (set_completed t true) ∧ id t = task_id
     ∧ ∀ j t', (j < i)%nat → tasks m !! j = Some t' → id t' ≠ task_id).
Proof.
  intros Hstep%mark_task_completed_step Hi.
  pose proof (get_task_by_id_spec m task_id) as Hspec.
  destruct (get_task_by_id m task_id) as [[pos task]|].
  - destruct Hstep as [-> _]. simpl. destruct Hspec as (Hpos & Hid & Hfirst).
    destruct (decide (pos = i)) as [-> | Hne].
    + right. rewrite Hi in Hpos. injection Hpos as ->.
      split; [| done]. apply list_lookup_insert_eq.
      by eapply lookup_lt_Some.
    + left. by rewrite list_lookup_insert_ne.
  - destruct Hstep as [-> _]. by left.
Qed.

Lemma reachable_history m0 m :
  reachable_from m0 m →
  storage m = storage m0
  ∧ next_id m0 ≤ next_id m
  ∧ ids (tasks m)
    = ids (tasks m0) ++ seqZ (next_id m0) (next_id m - next_id m0)
  ∧ ∀ i t0, tasks m0 !! i = Some t0 →
      ∃ t, tasks m !! i = Some t ∧ same_but_done t0 t.
Proof.
  induction 1 as
    [| m descr due given w r m' w' _ (IHst & IHle & IHids & IHpos) Hadd
     | m task_id w r m' w' _ (IHst & IHle & IHids & IHpos) Hmark].
  - split; [done |]. split; [lia |]. split.
    + by rewrite Z.sub_diag, seqZ_nil, app_nil_r.
    + intros i t0 Hi. exists t0. split; [done | apply same_but_done_refl].
  - pose proof (add_task_ids _ _ _ _ _ _ _ _ Hadd) as [Hids Hnext].
    split; [by apply add_task_step in Hadd as -> |].
    split; [lia |]. split.
    + rewrite Hids, IHids, Hnext, <- app_assoc. f_equal.
      replace (next_id m + 1 - next_id m0)
        with ((next_id m - next_id m0) + 1) by lia.
      rewrite seqZ_app by lia. f_equal.
      replace (next_id m0 + (next_id m - next_id m0)) with (next_id m) by lia.
      rewrite seqZ_cons, seqZ_nil by lia. done.
    + intros i t0 Hi. destruct (IHpos i t0 Hi) as (t & Ht & Hsame).
      exists t. split; [| done]. by eapply add_task_keeps.
  - pose proof (mark_task_completed_ids _ _ _ _ _ _ Hmark) as [Hids Hnext].
    split.
    { apply mark_task_completed_step in Hmark.
      destruct (get_task_by_id m task_id) as [[pos task]|];
        by destruct Hmark as [-> _]. }
    split; [lia |]. split; [by rewrite Hids, Hnext |].
    intros i t0 Hi. destruct (IHpos i t0 Hi) as (t & Ht & Hsame).
    destruct (mark_task_completed_keeps _ _ _ _ _ _ _ _ Hmark Ht)
      as [Hkeep | (Hdone & _)].
    + by exists t.
    + exists (set_completed t true).
      split; [done | by apply same_but_done_completed].
Qed.

Lemma reachable_max_id st w m0 w0 m :
  TaskManager_init st w = (Ok m0, w0) →
  reachable_from m0 m →
  next_id m = max_id (tasks m) + 1.
Proof.
  intros Hinit Hreach.
  assert (H0 : next_id m0 = max_id (tasks m0) + 1).
  { revert Hinit. unfold TaskManager_init. run.
    destruct (load_tasks st w) as [[ts|e] w1]; [| done].
    simpl. intros [= <- _]. simpl. by destruct ts. }
  induction Hreach as
    [| m descr due given w' r m' w'' Hreach IH Hadd
     | m task_id w' r m' w'' Hreach IH Hmark].
  - done.
  - apply add_task_step in Hadd as ->. simpl.
    rewrite max_id_app. simpl.
    pose proof (max_id_bound (tasks m)) as [? _]. lia.
  - apply mark_task_completed_ids in Hmark as [Hids ->].
    unfold max_id, ids in *. by rewrite Hids.
Qed.
End history.

(** A manager over a file with two records of the same id, after one
    addition and the completion of that id. *)
Lemma sample_run :
  let self := mkFileTaskStorage "my_tasks.txt" in
  let w := mkWorld {[ "my_tasks.txt" := "4,Pay rent,None,False,high
4,Pay rent again,None,False,low
" ]} [] in
  let m0 :=
    mkTaskManager self
      [mkTask 4 "Pay rent" None false "high";
       mkTask 4 "Pay rent again" None false "low"] 5 in
  let m1 := (add_task "Clean desk" None (Some "Low") (m0, w)).2.1 in
  let m2 := (mark_task_completed 4 (m1, w)).2.1 in
  TaskManager_init self w = (Ok m0, say (MsgLoaded 2 5) w)
  ∧ reachable_from m0 m2.
Proof.
  intros self w m0 m1 m2. split; [reflexivity |].
  apply (reach_mark m0 m1 4 w (Ok true) m2
           (mark_task_completed 4 (m1, w)).2.2).
  - apply (reach_add m0 m0 "Clean desk" None (Some "Low") w
             (add_task "Clean desk" None (Some "Low") (m0, w)).1 m1
             (add_task "Clean desk" None (Some "Low") (m0, w)).2.2).
    + apply reach_start.
    + reflexivity.
  - reflexivity.
Defined.

(** X3.  Over the life of a manager the collection only grows at its end:
    the storage stays the same, [next_id] never decreases, the ids are the
    initial ids followed by the consecutive integers from the initial
    [next_id] up to the current one, and every initial task is still at its
    position with the same id, description, due date and priority; a
    completion flag that was set stays set. *)
Theorem manager_history {S} `{TaskStorage S} (m0 m : TaskManager S) :
  reachable_from m0 m →
  storage m = storage m0
  ∧ next_id m0 ≤ next_id m
  ∧ ids (tasks m)
    = ids (tasks m0) ++ seqZ (next_id m0) (next_id m - next_id m0)
  ∧ ∀ i t0, tasks m0 !! i = Some t0 →
      ∃ t, tasks m !! i = Some t ∧ same_but_done t0 t.
Proof. apply reachable_history. Qed.

Lemma manager_history_witness :
  let self := mkFileTaskStorage "my_tasks.txt" in
  let w := mkWorld {[ "my_tasks.txt" := "4,Pay rent,None,False,high
4,Pay rent again,None,False,low
" ]} [] in
  let m0 :=
    mkTaskManager self
      [mkTask 4 "Pay rent" None false "high";
       mkTask 4 "Pay rent again" None false "low"] 5 in
  let m1 := (add_task "Clean desk" None (Some "Low") (m0, w)).2.1 in
  let m2 := (mark_task_completed 4 (m1, w)).2.1 in
  ids (tasks m2) = [4; 4] ++ seqZ 5 (next_id m2 - 5)
  ∧ ∃ t, tasks m2 !! 0%nat = Some t
         ∧ same_but_done (mkTask 4 "Pay rent" None false "high") t.
Proof.
  intros self w m0 m1 m2.
  destruct (manager_history m0 m2 (proj2 sample_run))
    as (_ & _ & Hids & Hpos).
  split; [exact Hids |]. apply (Hpos 0%nat). reflexivity.
Defined.

(** X4.  In every state a manager reaches from its construction, [next_id]
    is exactly one more than the greatest of 0 and the ids of its tasks:
    the value construction would compute again from the collection. *)
Theorem next_id_is_max_plus_one {S} `{TaskStorage S} (st : S)
    (w w0 : World) (m0 m : TaskManager S) :
  TaskManager_init st w = (Ok m0, w0) →
  reachable_from m0 m →
  next_id m = max_id (tasks m) + 1.
Proof. apply reachable_max_id. Qed.

Lemma next_id_is_max_plus_one_witness :
  let self := mkFileTaskStorage "my_tasks.txt" in
  let w := mkWorld {[ "my_tasks.txt" := "4,Pay rent,None,False,high
4,Pay rent again,None,False,low
" ]} [] in
  let m0 :=
    mkTaskManager self
      [mkTask 4 "Pay rent" None false "high";
       mkTask 4 "Pay rent again" None false "low"] 5 in
  let m1 := (add_task "Clean desk" None (Some "Low") (m0, w)).2.1 in
  let m2 := (mark_task_completed 4 (m1, w)).2.1 in
  next_id m2 = max_id (tasks m2) + 1.
Proof.
  intros self w m0 m1 m2.
  exact (next_id_is_max_plus_one self w _ m0 m2
           (proj1 sample_run) (proj2 sample_run)).
Defined.

(** X5.  Completing the same id twice is the same as completing it once:
    the second call leaves the manager as the first one left it, a first
    call that found nothing is followed by a second one that finds nothing,
    and after the first call a lookup of the id only finds a completed
    task. *)
Theorem mark_task_completed_twice {S} `{TaskStorage S} (m : TaskManager S)
    (task_id : Z) w r1 m1 w1 w1' r2 m2 w2 :
  mark_task_completed task_id (m, w) = (r1, (m1, w1)) →
  mark_task_completed task_id (m1, w1') = (r2, (m2, w2)) →
  m2 = m1
  ∧ (r1 = Ok false → r2 = Ok false)
  ∧ ∀ pos task,
      get_task_by_id m1 task_id = Some (pos, task) → completed task = true.
Proof.
  intros H1%mark_task_completed_step H2%mark_task_completed_step.
  pose proof (get_task_by_id_spec m task_id) as Hspec.
  unfold get_task_by_id in *.
  destruct (scan task_id (tasks m) 0) as [[pos task]|] eqn:Hscan.
  - destruct Hspec as (Hpos & Hid & _). destruct H1 as [-> Hr1].
    destruct (scan_insert task_id (tasks m) 0 pos task
                (set_completed task true) Hscan Hid) as (i & Hi & Hscan').
    simpl in Hi. subst i. simpl in H2. rewrite Hscan' in H2.
    destruct H2 as [-> _]. split.
    + unfold updated. simpl. by rewrite list_insert_insert_eq.
    + split; [done |]. simpl. rewrite Hscan'. by intros ? ? [= _ <-].
  - destruct H1 as [-> ->]. rewrite Hscan in H2. destruct H2 as [-> ->].
    split; [done |]. split; [done |]. by rewrite Hscan.
Qed.

Lemma mark_task_completed_twice_witness :
  let self := mkFileTaskStorage "my_tasks.txt" in
  let t1 := mkTask 1 "Write spec" None false "high" in
  let m := mkTaskManager self [t1] 2 in
  let w := mkWorld ∅ [] in
  let s1 := (mark_task_completed 1 (m, w)).2 in
  (mark_task_completed 1 s1).2.1 = s1.1
  ∧ tasks s1.1 = [set_completed t1 true].
Proof.
  intros self t1 m w s1.
  split; [| reflexivity].
  exact (proj1 (mark_task_completed_twice m 1 w
                  (mark_task_completed 1 (m, w)).1 s1.1 s1.2 s1.2
                  (mark_task_completed 1 s1).1 (mark_task_completed 1 s1).2.1
                  (mark_task_completed 1 s1).2.2 eq_refl eq_refl)).
Defined.

(** X6.  Of two tasks with the same id, only the first can ever be
    completed: the later one stays exactly as it was in every state the
    manager reaches, because the lookup by id stops at the first match. *)
Theorem later_duplicate_untouched {S} `{TaskStorage S}
    (m0 m : TaskManager S) (i j : nat) (a b : Task) :
  reachable_from m0 m →
  tasks m0 !! i = Some a → tasks m0 !! j = Some b →
  (i < j)%nat → id a = id b →
  tasks m !! j = Some b.
Proof.
  intros Hreach Ha Hb Hij Hid.
  assert (Hinv : tasks m !! j = Some b
                 ∧ ∃ a', tasks m !! i = Some a' ∧ id a' = id a);
    [| by destruct Hinv].
  induction Hreach as
    [| m descr due given w r m' w' _ (IHb & a' & IHa & IHid) Hadd
     | m task_id w r m' w' _ (IHb & a' & IHa & IHid) Hmark].
  - eauto.
  - split; [by eapply add_task_keeps |].
    exists a'. split; [by eapply add_task_keeps | done].
  - split.
    + destruct (mark_task_completed_keeps _ _ _ _ _ _ _ _ Hmark IHb)
        as [Hkeep | (_ & Hb_id & Hfirst)]; [done |].
      destruct (Hfirst i a' Hij IHa). congruence.
    + destruct (mark_task_completed_keeps _ _ _ _ _ _ _ _ Hmark IHa)
        as [Hkeep | (Hdone & _)]; eauto.
Qed.

Lemma later_duplicate_untouched_witness :
  let self := mkFileTaskStorage "my_tasks.txt" in
  let w := mkWorld {[ "my_tasks.txt" := "4,Pay rent,None,False,high
4,Pay rent again,None,False,low
" ]} [] in
  let m0 :=
    mkTaskManager self
      [mkTask 4 "Pay rent" None false "high";
       mkTask 4 "Pay rent again" None false "low"] 5 in
  let m1 := (add_task "Clean desk" None (Some "Low") (m0, w)).2.1 in
  let m2 := (mark_task_completed 4 (m1, w)).2.1 in
  tasks m2 !! 1%nat = Some (mkTask 4 "Pay rent again" None false "low")
  ∧ tasks m2 !! 0%nat = Some (mkTask 4 "Pay rent" None true "high").
Proof.
  intros self w m0 m1 m2. split; [| reflexivity].
  apply (later_duplicate_untouched m0 m2 0 1
           (mkTask 4 "Pay rent" None false "high")
           (mkTask 4 "Pay rent again" None false "low") (proj2 sample_run));
    [reflexivity | reflexivity | lia | reflexivity].
Defined.


(** ** Loading, whatever the file holds *)

Section loading_any.
Import Py.

(** The loop body reads the world only through the line it is given: its
    result and what it prints are the same in every world. *)
Lemma load_line_pure line acc :
  ∃ r out,
    (∀ fs0 so,
       load_line line acc (mkWorld fs0 so) = (r, mkWorld fs0 (so ++ out)))
    ∧ (r = Raise ValueError
       ∨ ∃ new, r = Ok (acc ++ new)
                ∧ Forall (λ t, priority t ∈ valid_priorities) new).
Proof.
  unfold load_line. set (parts := split "," (strip line)).
  case_bool_decide as Hlen.
  - unfold bind at 1, lift_result.
    destruct (int (nth 0 parts EmptyString)) as [z|e] eqn:Hint.
    + match goal with
      | |- context [Task_init ?i ?d ?due ?c ?g] =>
          pose proof (λ w, Task_init_cases i d due c g w) as Hinit;
          set (given := g) in *; set (descr := d) in *;
          set (dd := due) in *; set (cc := c) in *
      end.
      exists (Ok (acc ++ [mkTask z descr dd cc (stored_priority given)])),
        (if unknown_priority given then [MsgInvalidPriority given] else []).
      split.
      * intros fs0 so. unfold bind, ret.
        destruct (Hinit (mkWorld fs0 so)) as [-> _].
        destruct (unknown_priority given); simpl.
        -- done.
        -- by rewrite app_nil_r.
      * right. eexists. split; [done |].
        apply List.Forall_cons; [| apply List.Forall_nil].
        apply (proj2 (Hinit (mkWorld ∅ []))).
    + exists (Raise ValueError), []. split; [| by left].
      intros fs0 so. rewrite app_nil_r. unfold int in Hint.
      destruct (int_literal _); [done |]. by injection Hint as <-.
  - exists (Ok acc), []. split.
    + intros fs0 so. by rewrite app_nil_r.
    + right. exists []. by rewrite app_nil_r.
Qed.

Lemma load_lines_pure lines acc :
  ∃ r out,
    (∀ fs0 so,
       load_lines lines acc (mkWorld fs0 so) = (r, mkWorld fs0 (so ++ out)))
    ∧ (r = Raise ValueError
       ∨ ∃ new, r = Ok (acc ++ new)
                ∧ Forall (λ t, priority t ∈ valid_priorities) new).
Proof.
  revert acc. induction lines as [|line lines IH]; intros acc; simpl.
  - exists (Ok acc), []. split.
    + intros fs0 so. by rewrite app_nil_r.
    + right. exists []. by rewrite app_nil_r.
  - destruct (load_line_pure line acc) as (r1 & out1 & Hrun1 & Hr1).
    destruct Hr1 as [-> | (new1 & -> & Hnew1)].
    + exists (Raise ValueError), out1. split; [| by left].
      intros fs0 so. unfold bind. by rewrite Hrun1.
    + destruct (IH (acc ++ new1)) as (r2 & out2 & Hrun2 & Hr2).
      exists r2, (out1 ++ out2). split.
      * intros fs0 so. unfold bind. rewrite Hrun1, Hrun2.
        by rewrite app_assoc.
      * destruct Hr2 as [-> | (new2 & -> & Hnew2)]; [by left |].
        right. exists (new1 ++ new2). rewrite app_assoc.
        split; [done | by apply Forall_app].
Qed.

Lemma load_tasks_pure (self : FileTaskStorage) w :
  ∃ r out,
    FileTaskStorage_load_tasks self w = (r, mkWorld (fs w) (stdout w ++ out))
    ∧ (r = Raise ValueError
       ∨ ∃ ts, r = Ok ts ∧ Forall (λ t, priority t ∈ valid_priorities) ts).
Proof.
  destruct (fs w !! filename self) as [content|] eqn:Hf.
  - rewrite (load_tasks_present self w content Hf).
    destruct (load_lines_pure (file_lines content) [])
      as (r & out & Hrun & Hr).
    exists r, out. split; [| done].
    destruct w as [fs0 so]. apply Hrun.
  - exists (Ok []), [MsgStartingFresh (filename self)]. split.
    + unfold FileTaskStorage_load_tasks, try_except, bind, open_read.
      by rewrite Hf.
    + right. exists []. split; [done | constructor].
Qed.
End loading_any.

(** X7.  [load_tasks] only reads: whatever the file holds and whether the
    load returns or raises, the file system is left as it was and the
    console only grows.  The only exception it lets out is [ValueError],
    and every task it returns has a priority among low, medium and high. *)
Theorem load_tasks_read_only (self : FileTaskStorage) (w w' : World)
    (r : result (list Task)) :
  FileTaskStorage_load_tasks self w = (r, w') →
  fs w' = fs w
  ∧ (∃ out, stdout w' = stdout w ++ out)
  ∧ (∀ e, r = Raise e → e = ValueError)
  ∧ (∀ ts, r = Ok ts → Forall (λ t, priority t ∈ valid_priorities) ts).
Proof.
  destruct (load_tasks_pure self w) as (r0 & out & -> & Hr).
  intros [= <- <-]. simpl. split; [done |]. split; [eauto |].
  destruct Hr as [-> | (ts & -> & Hts)].
  - split; [by intros e [= <-] | done].
  - split; [done | by intros ? [= <-]].
Qed.

Lemma load_tasks_read_only_witness :
  let self := mkFileTaskStorage "tasks.txt" in
  let w := mkWorld {[ "tasks.txt" := "1,Write spec,None,False,URGENT
2,Clean desk,,True,LOW,extra
" ]} [] in
  let run := FileTaskStorage_load_tasks self w in
  run.1 = Ok [mkTask 1 "Write spec" None false "medium";
              mkTask 2 "Clean desk" (Some EmptyString) true "low"]
  ∧ fs run.2 = fs w
  ∧ ∃ out, stdout run.2 = stdout w ++ out.
Proof.
  intros self w run. split; [reflexivity |].
  destruct (load_tasks_read_only self w run.2 run.1 eq_refl)
    as (Hfs & Hout & _).
  split; [exact Hfs | exact Hout].
Defined.

(** X8.  A manager built over the file storage never holds a task whose
    priority is not low, medium or high, neither after construction from
    any file nor after any additions and completions: the default weight of
    the listing is never needed for its tasks. *)
Theorem file_manager_priorities (self : FileTaskStorage) (w w0 : World)
    (m0 m : TaskManager FileTaskStorage) :
  TaskManager_init self w = (Ok m0, w0) →
  reachable_from m0 m →
  Forall (λ t, priority t ∈ valid_priorities) (tasks m)
  ∧ ∀ t, t ∈ tasks m →
      priority_weight (priority t) = 1 ∨ priority_weight (priority t) = 2
      ∨ priority_weight (priority t) = 3.
Proof.
  intros Hinit Hreach.
  assert (Hvalid : Forall (λ t, priority t ∈ valid_priorities) (tasks m)).
  { assert (H0 : Forall (λ t, priority t ∈ valid_priorities) (tasks m0)).
    { revert Hinit. unfold TaskManager_init. run.
      destruct (load_tasks_pure self w) as (r & out & -> & Hr).
      destruct Hr as [-> | (ts & -> & Hts)]; [done |].
      by intros [= <- _]. }
    induction Hreach as
      [| m descr due given w1 r m' w2 _ IH Hadd
       | m task_id w1 r m' w2 _ IH Hmark].
    - done.
    - apply add_task_step in Hadd as ->. simpl.
      apply Forall_app. split; [done |].
      apply List.Forall_cons; [| apply List.Forall_nil].
      apply (proj2 (Task_init_cases 0 EmptyString None false given
                      (mkWorld ∅ []))).
    - apply mark_task_completed_step in Hmark.
      pose proof (get_task_by_id_spec m task_id) as Hspec.
      destruct (get_task_by_id m task_id) as [[pos task]|].
      + destruct Hmark as [-> _]. destruct Hspec as (Hpos & _).
        simpl. apply Forall_insert; [done |].
        rewrite Forall_forall in IH. simpl.
        by apply IH, (list_elem_of_lookup_2 _ pos).
      + by destruct Hmark as [-> _]. }
  split; [done |]. intros t Ht.
  rewrite Forall_forall in Hvalid. specialize (Hvalid t Ht).
  unfold valid_priorities in Hvalid.
  rewrite !elem_of_cons, elem_of_nil in Hvalid.
  destruct Hvalid as [-> | [-> | [-> | []]]]; auto.
Qed.

Lemma file_manager_priorities_witness :
  let self := mkFileTaskStorage "my_tasks.txt" in
  let w := mkWorld {[ "my_tasks.txt" := "4,Pay rent,None,False,high
4,Pay rent again,None,False,low
" ]} [] in
  let m0 :=
    mkTaskManager self
      [mkTask 4 "Pay rent" None false "high";
       mkTask 4 "Pay rent again" None false "low"] 5 in
  let m1 := (add_task "Clean desk" None (Some "Low") (m0, w)).2.1 in
  let m2 := (mark_task_completed 4 (m1, w)).2.1 in
  Forall (λ t, priority t ∈ valid_priorities) (tasks m2).
Proof.
  intros self w m0 m1 m2.
  exact (proj1 (file_manager_priorities self w _ m0 m2
                  (proj1 sample_run) (proj2 sample_run))).
Defined.

(** ** Restarting from the file *)

Section restart.
Import Py PyFacts.

Lemma load_in_sync (self : FileTaskStorage) ts w :
  Forall storable ts →
  fs w !! filename self = Some (file_text ts) →
  FileTaskStorage_load_tasks self w = (Ok ts, w).
Proof.
  intros Hts Hf. rewrite (load_tasks_present self w _ Hf).
  unfold file_lines.
  rewrite universal_newlines_plain by (by apply file_text_plain).
  rewrite readlines_file_text by done. by rewrite load_lines_records.
Qed.

Lemma restart_restartable (m : TaskManager FileTaskStorage) w :
  restartable m w →
  TaskManager_init (storage m) w
  = (Ok m, say (MsgLoaded (length (tasks m)) (next_id m)) w).
Proof.
  intros (Hst & Hnext & Hsync). unfold TaskManager_init, bind. simpl.
  rewrite (load_in_sync (storage m) (tasks m) w Hst Hsync).
  destruct m as [st ts n]. simpl in *. subst n.
  destruct ts; reflexivity.
Qed.

Lemma storable_set_completed t : storable t → storable (set_completed t true).
Proof. by intros (? & ? & ?). Qed.

Lemma add_task_restartable (m : TaskManager FileTaskStorage) w descr due
    given r m' w' :
  Forall storable (tasks m) →
  next_id m = max_id (tasks m) + 1 →
  storable_input descr due →
  add_task descr due given (m, w) = (r, (m', w')) →
  restartable m' w'.
Proof.
  intros Hst Hnext [Hd Hdue].
  destruct (Task_init_cases (next_id m) descr due false given w)
    as [Hinit Hvalid].
  rewrite (add_task_run m w descr due given _ _ Hinit). simpl.
  set (task := mkTask (next_id m) descr due false (stored_priority given)).
  assert (Hres : ∀ w2,
    fs w2 !! filename (storage m) = Some (file_text (tasks m ++ [task])) →
    restartable (grown m task) w2).
  { intros w2 Hf. split; [| split; [| done]].
    - apply Forall_app. split; [done |].
      apply List.Forall_cons; [| apply List.Forall_nil].
      by repeat split.
    - simpl. rewrite max_id_app. simpl.
      pose proof (max_id_bound (tasks m)) as [? _]. lia. }
  destruct given; intros [= _ <- <-]; apply Hres; simpl;
    apply lookup_insert_eq.
Qed.

Lemma mark_task_completed_restartable (m : TaskManager FileTaskStorage) w
    task_id r m' w' :
  restartable m w →
  mark_task_completed task_id (m, w) = (r, (m', w')) →
  restartable m' w'.
Proof.
  intros (Hst & Hnext & Hsync). rewrite mark_task_completed_run.
  pose proof (get_task_by_id_spec m task_id) as Hspec.
  destruct (get_task_by_id m task_id) as [[pos task]|]; simpl.
  - destruct Hspec as (Hpos & _). intros [= _ <- <-].
    split; [| split].
    + simpl. apply Forall_insert; [done |].
      apply storable_set_completed.
      rewrite Forall_forall in Hst.
      by apply Hst, (list_elem_of_lookup_2 _ pos).
    + simpl. rewrite Hnext. unfold max_id.
      change (id <$> <[pos:=set_completed task true]> (tasks m))
        with (ids (<[pos:=set_completed task true]> (tasks m))).
      by rewrite ids_updated.
    + unfold in_sync. simpl. apply lookup_insert_eq.
  - intros [= _ <- <-]. done.
Qed.
End restart.

(** X9.  After a call of [add_task] on a file-backed manager, whatever it
    returns or raises, a manager constructed anew over the file is the
    manager just left, with the same tasks and the same [next_id], provided
    the tasks held before are storable, [next_id] is one more than the
    greatest id, and the new description and due date hold no comma or line
    break (and the due date is not the text "None"). *)
Theorem add_task_then_restart (m : TaskManager FileTaskStorage) (w : World)
    descr due given r m' w' :
  Forall storable (tasks m) →
  next_id m = max_id (tasks m) + 1 →
  storable_input descr due →
  add_task descr due given (m, w) = (r, (m', w')) →
  restartable m' w'
  ∧ TaskManager_init (storage m') w'
    = (Ok m', say (MsgLoaded (length (tasks m')) (next_id m')) w').
Proof.
  intros Hst Hnext Hin Hadd.
  pose proof (add_task_restartable m w descr due given r m' w'
                Hst Hnext Hin Hadd) as Hres.
  split; [done | by apply restart_restartable].
Qed.

Lemma add_task_then_restart_witness :
  let self := mkFileTaskStorage "my_tasks.txt" in
  let m := mkTaskManager self [] 1 in
  let run := add_task "Clean desk" (Some "2024-03-01") None (m, mkWorld ∅ []) in
  run.1 = Raise AttributeError
  ∧ TaskManager_init self run.2.2
    = (Ok (mkTaskManager self
             [mkTask 1 "Clean desk" (Some "2024-03-01") false "medium"] 2),
       say (MsgLoaded 1 2) run.2.2).
Proof.
  intros self m run. split; [reflexivity |].
  refine (proj2 (add_task_then_restart m (mkWorld ∅ []) "Clean desk"
                   (Some "2024-03-01") None run.1 run.2.1 run.2.2
                   _ _ _ eq_refl)).
  - apply List.Forall_nil.
  - reflexivity.
  - split; [reflexivity |]. split; [reflexivity | discriminate].
Defined.

(** X10.  A file-backed manager that a restart would rebuild stays so
    through [mark_task_completed], found or not, returned or raised: a
    manager constructed anew over the file afterwards is the manager just
    left, the completion included. *)
Theorem mark_task_completed_then_restart
    (m : TaskManager FileTaskStorage) (w : World) task_id r m' w' :
  restartable m w →
  mark_task_completed task_id (m, w) = (r, (m', w')) →
  restartable m' w'
  ∧ TaskManager_init (storage m') w'
    = (Ok m', say (MsgLoaded (length (tasks m')) (next_id m')) w').
Proof.
  intros Hres Hmark.
  pose proof (mark_task_completed_restartable m w task_id r m' w'
                Hres Hmark) as Hres'.
  split; [done | by apply restart_restartable].
Qed.

Lemma mark_task_completed_then_restart_witness :
  let self := mkFileTaskStorage "my_tasks.txt" in
  let t1 := mkTask 1 "Write spec" None false "high" in
  let m := mkTaskManager self [t1] 2 in
  let w := mkWorld {[ "my_tasks.txt" := "1,Write spec,None,False,high
" ]} [] in
  let run := mark_task_completed 1 (m, w) in
  TaskManager_init self run.2.2
  = (Ok (mkTaskManager self [set_completed t1 true] 2),
     say (MsgLoaded 1 2) run.2.2).
Proof.
  intros self t1 m w run.
  refine (proj2 (mark_task_completed_then_restart m w 1 run.1 run.2.1
                   run.2.2 _ eq_refl)).
  split; [| split; reflexivity].
  apply List.Forall_cons; [| apply List.Forall_nil].
  split; [reflexivity |]. split; [exact I | elem_of_list].
Defined.

(** ** More on construction and loading *)

(** X11.  [Task.__init__] never raises on a priority that is absent or a
    text, keeps the id, description, due date and flag it is given, and
    leaves the world alone except for one warning, printed exactly when the
    priority is a non-empty text whose lower-case form is not low, medium
    or high; an absent or empty priority is replaced silently. *)
Theorem Task_init_warning (task_id : Z) (descr : string)
    (due : option string) (done : bool) (given : option string) (w : World) :
  Task_init task_id descr due done given w
  = (Ok (mkTask task_id descr due done (stored_priority given)),
     if unknown_priority given then say (MsgInvalidPriority given) w else w)
  ∧ (unknown_priority given = true
     ↔ ∃ s, given = Some s ∧ s ≠ EmptyString
            ∧ Py.lower s ∉ valid_priorities)
  ∧ unknown_priority None = false
  ∧ unknown_priority (Some EmptyString) = false.
Proof.
  split; [apply Task_init_cases |]. split; [| done].
  unfold unknown_priority. destruct given as [s|].
  - rewrite andb_true_iff, !negb_true_iff, bool_decide_eq_false. split.
    + intros [Hs Hl]. exists s. split; [done |]. split; [| done].
      by destruct s.
    + intros (s' & [= <-] & Hs & Hl). split; [| done]. by destruct s.
  - split; [done |]. by intros (s & ? & _).
Qed.

(** X12.  On a line of five fields or more whose first field is an integer
    literal, the loop body of [load_tasks] reads the priority from the
    fifth field as [Task.__init__] normalises it and ignores every field
    after the fifth. *)
Theorem load_line_extra_fields (line p0 p1 p2 p3 p4 : string)
    (rest : list string) (z : Z) (acc : list Task) (w : World) :
  Py.split "," (Py.strip line) = p0 :: p1 :: p2 :: p3 :: p4 :: rest →
  Py.int p0 = Ok z →
  load_line line acc w
  = (Ok (acc ++ [mkTask z p1
                   (if bool_decide (p2 ≠ "None") then Some p2 else None)
                   (bool_decide (p3 = "True"))
                   (stored_priority (Some p4))]),
     if unknown_priority (Some p4)
     then say (MsgInvalidPriority (Some p4)) w else w).
Proof.
  intros Hparts Hint. unfold load_line. rewrite Hparts. cbn [length nth].
  rewrite (bool_decide_true (4 ≤ _)%nat), (bool_decide_true (4 < _)%nat)
    by lia.
  unfold bind at 1, lift_result. rewrite Hint. unfold bind.
  by destruct (Task_init_cases z p1
                 (if bool_decide (p2 ≠ "None") then Some p2 else None)
                 (bool_decide (p3 = "True")) (Some p4) w) as [-> _].
Qed.

Lemma load_line_extra_fields_witness :
  load_line "2,Clean desk,,True,LOW,extra,more
" [] (mkWorld ∅ [])
  = (Ok [mkTask 2 "Clean desk" (Some EmptyString) true "low"], mkWorld ∅ []).
Proof.
  exact (load_line_extra_fields "2,Clean desk,,True,LOW,extra,more
" "2" "Clean desk" EmptyString "True" "LOW"
           ["extra"; "more"] 2 [] (mkWorld ∅ []) eq_refl eq_refl).
Defined.

Lemma universal_newlines_no_CR s :
  Py.contains Py.CR (Py.universal_newlines s) = false.
Proof.
  induction s as [|c s IH]; [done |].
  change (Py.universal_newlines (String c s))
    with (if Ascii.eqb c Py.CR then
            String Py.LF match s with
                         | String c' s'' =>
                             if Ascii.eqb c' Py.LF
                             then Py.universal_newlines s''
                             else Py.universal_newlines s
                         | EmptyString => EmptyString
                         end
          else String c (Py.universal_newlines s)).
  destruct (Ascii.eqb c Py.CR) eqn:Hc.
  - destruct s as [|c' s'']; [done |].
    destruct (Ascii.eqb c' Py.LF) eqn:Hc'; [| exact IH].
    apply Ascii.eqb_eq in Hc' as ->. exact IH.
  - change (Py.contains Py.CR (String c (Py.universal_newlines s)))
      with (Ascii.eqb c Py.CR || Py.contains Py.CR (Py.universal_newlines s)).
    by rewrite Hc, IH.
Qed.

(** ** Listing by priority *)

(** X14.  [list_tasks_by_priority] with a text displays, after a header,
    exactly the tasks whose priority equals the lower-case form of the
    text, in collection order and without sorting, or a note that there are
    none; it changes neither the manager nor the file system.  With an
    absent priority it raises [AttributeError] before printing anything. *)
Theorem list_tasks_by_priority_spec {S} `{TaskStorage S}
    (m : TaskManager S) (w : World) :
  (∀ p : string,
     let found := filter (λ t, priority t = Py.lower p) (tasks m) in
     list_tasks_by_priority (Some p) (m, w)
     = (Ok tt,
        (m, mkWorld (fs w) (stdout w ++ priority_listing (Some p) found)))
     ∧ displayed (priority_listing (Some p) found) = found)
  ∧ list_tasks_by_priority None (m, w) = (Raise AttributeError, (m, w)).
Proof.
  split.
  - intros p found. unfold list_tasks_by_priority. run. fold found.
    unfold priority_listing. destruct found as [|t ts] eqn:Hfound.
    + split; [| done]. unfold say. simpl. rewrite <- app_assoc.
      by destruct m.
    + split.
      * rewrite print_tasks_run. unfold say. simpl.
        rewrite <- !app_assoc. by destruct m.
      * unfold displayed. simpl. f_equal. rewrite omap_app. simpl.
        rewrite app_nil_r. apply displayed_tasks.
  - unfold list_tasks_by_priority. run. by destruct m.
Qed.


(** ** What is loaded can be stored *)

Section loaded_storable.
Import Py PyFacts.

Lemma all_chars_append p (a b : string) :
  all_chars p (a +:+ b) = all_chars p a && all_chars p b.
Proof.
  induction a as [|x a IH]; str_simpl; [done |].
  by rewrite IH, andb_assoc.
Qed.

Lemma all_chars_lstrip p sp s :
  all_chars p s = true → all_chars p (lstrip_by sp s) = true.
Proof.
  induction s as [|c s IH]; simpl; [done |].
  intros Hall. destruct (sp c); [| done].
  apply andb_true_iff in Hall as [_ Hs]. by apply IH.
Qed.

Lemma all_chars_rstrip p sp s :
  all_chars p s = true → all_chars p (rstrip_by sp s) = true.
Proof.
  induction s as [|c s IH]; simpl; [done |].
  intros [Hc Hs]%andb_true_iff.
  destruct (sp c && is_empty (rstrip_by sp s)); [done |].
  simpl. by rewrite Hc, IH.
Qed.

Lemma split_parts sep p s part :
  all_chars p s = true → part ∈ split sep s →
  all_chars p part = true ∧ contains sep part = false.
Proof.
  revert part. induction s as [|c s IH]; intros part; simpl.
  - by intros _ ->%list_elem_of_singleton.
  - intros [Hc Hs]%andb_true_iff.
    destruct (Ascii.eqb c sep) eqn:Hsep.
    + intros [-> | Hin]%elem_of_cons; [done | by apply IH].
    + pose proof (λ q, IH q Hs) as IH'.
      destruct (split sep s) as [|q qs]; simpl.
      * intros ->%list_elem_of_singleton. simpl. by rewrite Hc, Hsep.
      * intros [-> | Hin]%elem_of_cons.
        -- destruct (IH' q) as [Hq1 Hq2]; [apply list_elem_of_here |].
           simpl. by rewrite Hc, Hsep, Hq1, Hq2.
        -- apply IH'. by apply list_elem_of_further.
Qed.

(** A line of an open file holds a line feed at its end only. *)
Lemma readlines_line p s line :
  all_chars p s = true → line ∈ readlines s →
  all_chars p line = true
  ∧ ∃ body, contains LF body = false
            ∧ (line = body ∨ line = body +:+ String LF EmptyString).
Proof.
  revert line. induction s as [|c s IH]; intros line; simpl.
  - intros _ Hin. by apply elem_of_nil in Hin.
  - intros [Hc Hs]%andb_true_iff.
    destruct (Ascii.eqb c LF) eqn:Hlf.
    + intros [-> | Hin]%elem_of_cons; [| by apply IH].
      split; [simpl; by rewrite Hc |].
      exists EmptyString. split; [done |]. right.
      by apply Ascii.eqb_eq in Hlf as ->.
    + pose proof (λ q, IH q Hs) as IH'.
      destruct (readlines s) as [|q qs]; simpl.
      * intros ->%list_elem_of_singleton. split; [simpl; by rewrite Hc |].
        exists (String c EmptyString). split; [| by left].
        simpl. by rewrite Hlf.
      * intros [-> | Hin]%elem_of_cons.
        -- destruct (IH' q) as (Hq & body & Hbody & Hline);
             [apply list_elem_of_here |].
           split; [simpl; by rewrite Hc, Hq |].
           exists (String c body). split; [simpl; by rewrite Hlf |].
           destruct Hline as [-> | ->]; [by left | by right].
        -- apply IH'. by apply list_elem_of_further.
Qed.

Lemma all_chars_no_CR s :
  contains CR s = false →
  all_chars (λ c, negb (Ascii.eqb c CR)) s = true.
Proof.
  induction s as [|c s IH]; simpl; [done |].
  intros [Hc Hs]%orb_false_iff. by rewrite Hc, IH.
Qed.

Lemma all_chars_no_break s :
  contains LF s = false → contains CR s = false →
  all_chars no_break s = true.
Proof.
  induction s as [|c s IH]; simpl; [done |].
  intros [Hc1 Hs1]%orb_false_iff [Hc2 Hs2]%orb_false_iff.
  unfold no_break at 1. by rewrite Hc1, Hc2, IH.
Qed.

(** The fields of a line of a file hold no comma and no line break. *)
Lemma file_line_parts content line part :
  line ∈ file_lines content →
  part ∈ split "," (strip line) →
  plain_text part = true.
Proof.
  unfold file_lines. intros Hline Hpart.
  destruct (readlines_line (λ c, negb (Ascii.eqb c CR)) _ line
              (all_chars_no_CR _ (universal_newlines_no_CR content)) Hline)
    as (Hcr & body & Hbody & Hshape).
  assert (Hstrip : all_chars no_break (strip line) = true).
  { unfold strip, strip_by. apply all_chars_lstrip.
    assert (Hcr' : contains CR body = false).
    { destruct Hshape as [-> | ->].
      - by apply (all_chars_contains _ _ _ Hcr).
      - rewrite all_chars_append in Hcr.
        apply andb_true_iff in Hcr as [Hcr _].
        by apply (all_chars_contains _ _ _ Hcr). }
    destruct Hshape as [-> | ->].
    - apply all_chars_rstrip. by apply all_chars_no_break.
    - rewrite rstrip_by_drop by done.
      apply all_chars_rstrip. by apply all_chars_no_break. }
  destruct (split_parts "," no_break _ part Hstrip Hpart) as [Hnb Hcomma].
  unfold plain_text. rewrite Hcomma.
  rewrite (all_chars_contains no_break LF part Hnb) by done.
  by rewrite (all_chars_contains no_break CR part Hnb).
Qed.
End loaded_storable.

Section loaded_tasks.
Import Py PyFacts.

Lemma load_line_storable content line acc w l w' :
  line ∈ file_lines content →
  load_line line acc w = (Ok l, w') →
  ∃ new, l = acc ++ new ∧ Forall storable new.
Proof.
  intros Hline. unfold load_line.
  pose proof (λ part, file_line_parts content line part Hline) as Hparts.
  set (parts := split "," (strip line)) in *.
  case_bool_decide as Hlen.
  - unfold bind at 1, lift_result.
    destruct (int (nth 0 parts EmptyString)) as [z|e]; [| done].
    match goal with
    | |- context [Task_init ?i ?d ?due ?c ?g] =>
        destruct (Task_init_cases i d due c g w) as [Hinit Hvalid]
    end.
    unfold bind, ret. rewrite Hinit.
    intros [= <- _]. eexists. split; [done |].
    apply List.Forall_cons; [| apply List.Forall_nil].
    assert (Hnth : ∀ n, (n < 4)%nat →
              plain_text (nth n parts EmptyString) = true).
    { intros n Hn. apply Hparts, list_elem_of_In, nth_In. lia. }
    split; [simpl; apply Hnth; lia |]. split; [| exact Hvalid]. simpl.
    destruct (decide (nth 2 parts EmptyString ≠ "None")) as [Hne | He].
    + rewrite bool_decide_true by done. split; [apply Hnth; lia | done].
    + by rewrite bool_decide_false.
  - unfold ret. intros [= <- _]. exists []. by rewrite app_nil_r.
Qed.

Lemma load_lines_storable content lines acc w l w' :
  Forall (λ line, line ∈ file_lines content) lines →
  load_lines lines acc w = (Ok l, w') →
  ∃ new, l = acc ++ new ∧ Forall storable new.
Proof.
  intros Hlines. revert acc w.
  induction Hlines as [|line lines Hline _ IH]; intros acc w; simpl.
  - unfold ret. intros [= <- _]. exists []. by rewrite app_nil_r.
  - unfold bind.
    destruct (load_line line acc w) as [[l1|e] w1] eqn:Hl1; [| done].
    destruct (load_line_storable content line acc w l1 w1 Hline Hl1)
      as (new1 & -> & Hnew1).
    intros (new2 & -> & Hnew2)%IH.
    exists (new1 ++ new2). rewrite app_assoc.
    split; [done | by apply Forall_app].
Qed.

Lemma loaded_storable (self : FileTaskStorage) w ts w' :
  FileTaskStorage_load_tasks self w = (Ok ts, w') → Forall storable ts.
Proof.
  destruct (fs w !! filename self) as [content|] eqn:Hf.
  - rewrite (load_tasks_present self w content Hf).
    intros (new & -> & Hnew)%(load_lines_storable content); [done |].
    by apply Forall_forall.
  - unfold FileTaskStorage_load_tasks, try_except, bind, open_read.
    rewrite Hf. simpl. intros [= <- _]. constructor.
Qed.
End loaded_tasks.

(** X15.  Every task [load_tasks] returns, from whatever file, is one the
    record format carries: its description and due date hold no comma and
    no line break, its due date is not the text "None", and its priority is
    low, medium or high.  So saving what was loaded and loading again
    returns the same tasks. *)
Theorem loaded_tasks_storable (self : FileTaskStorage) (w w' : World)
    (ts : list Task) :
  FileTaskStorage_load_tasks self w = (Ok ts, w') →
  Forall storable ts
  ∧ ∀ w1, ∃ w2,
      FileTaskStorage_save_tasks self ts w1 = (Ok tt, w2)
      ∧ FileTaskStorage_load_tasks self w2 = (Ok ts, w2).
Proof.
  intros Hts%loaded_storable. split; [done |].
  intros w1. eexists. split; [reflexivity |].
  apply load_in_sync; [done |]. simpl. apply lookup_insert_eq.
Qed.

Lemma loaded_tasks_storable_witness :
  let self := mkFileTaskStorage "tasks.txt" in
  let w := mkWorld {[ "tasks.txt" := "  1,Write spec,None,False,URGENT,x
short line
2,Clean desk,,True
" ]} [] in
  let ts := [mkTask 1 "Write spec" None false "medium";
             mkTask 2 "Clean desk" (Some EmptyString) true "medium"] in
  (FileTaskStorage_load_tasks self w).1 = Ok ts
  ∧ Forall storable ts
  ∧ ∃ w2, FileTaskStorage_save_tasks self ts w = (Ok tt, w2)
          ∧ fs w2 !! "tasks.txt"
            = Some "1,Write spec,None,False,medium
2,Clean desk,,True,medium
"
          ∧ FileTaskStorage_load_tasks self w2 = (Ok ts, w2).
Proof.
  intros self w ts. split; [reflexivity |].
  destruct (loaded_tasks_storable self w
              (FileTaskStorage_load_tasks self w).2 ts eq_refl)
    as [Hst Hsave].
  split; [exact Hst |].
  destruct (Hsave w) as (w2 & Hw2 & Hload).
  exists w2. split; [exact Hw2 |]. split; [| exact Hload].
  injection Hw2 as <-. reflexivity.
Defined.

(** X16.  A manager constructed over any file that loads, followed by one
    [add_task] whose description and due date hold no comma or line break
    (the due date not being the text "None"), can be restarted: a manager
    constructed anew over the file has the same tasks and the same
    [next_id], whatever [add_task] returned or raised. *)
Theorem construct_add_restart (self : FileTaskStorage) (w w0 : World)
    (m0 : TaskManager FileTaskStorage) descr due given r m' w' :
  TaskManager_init self w = (Ok m0, w0) →
  storable_input descr due →
  add_task descr due given (m0, w0) = (r, (m', w')) →
  TaskManager_init self w'
  = (Ok m', say (MsgLoaded (length (tasks m')) (next_id m')) w').
Proof.
  intros Hinit Hin Hadd.
  assert (Hst : Forall storable (tasks m0) ∧ storage m0 = self).
  { revert Hinit. unfold TaskManager_init. run.
    destruct (FileTaskStorage_load_tasks self w) as [[ts|e] w1] eqn:Hload;
      [| done].
    intros [= <- _]. simpl. split; [| done].
    by apply (loaded_storable self w ts w1). }
  destruct Hst as [Hst Hself].
  pose proof (reachable_max_id self w m0 w0 m0 Hinit (reach_start m0))
    as Hnext.
  pose proof (add_task_restartable m0 w0 descr due given r m' w'
                Hst Hnext Hin Hadd) as Hres.
  pose proof (restart_restartable m' w' Hres) as Hrestart.
  apply add_task_step in Hadd. subst m'. simpl in *.
  by rewrite Hself in Hrestart.
Qed.

Lemma construct_add_restart_witness :
  let self := mkFileTaskStorage "tasks.txt" in
  let w := mkWorld {[ "tasks.txt" := "7,Pay rent,None,True,HIGH,paid
not a record
" ]} [] in
  let m0 := mkTaskManager self [mkTask 7 "Pay rent" None true "high"] 8 in
  let w0 := say (MsgLoaded 1 8) w in
  let run := add_task "Clean desk" None (Some "low") (m0, w0) in
  TaskManager_init self run.2.2
  = (Ok (mkTaskManager self
           [mkTask 7 "Pay rent" None true "high";
            mkTask 8 "Clean desk" None false "low"] 9),
     say (MsgLoaded 2 9) run.2.2).
Proof.
  intros self w m0 w0 run.
  assert (Hinit : TaskManager_init self w = (Ok m0, w0)) by reflexivity.
  refine (construct_add_restart self w w0 m0 "Clean desk" None (Some "low")
            run.1 run.2.1 run.2.2 Hinit _ eq_refl).
  split; [reflexivity | exact I].
Defined.

Lemma Task_init_warning_witness :
  Task_init 1 "Write spec" None false (Some "URGENT") (mkWorld ∅ [])
  = (Ok (mkTask 1 "Write spec" None false "medium"),
     mkWorld ∅ [MsgInvalidPriority (Some "URGENT")])
  ∧ unknown_priority (Some "URGENT") = true.
Proof.
  destruct (Task_init_warning 1 "Write spec" None false (Some "URGENT")
              (mkWorld ∅ [])) as (Hrun & Hiff & _).
  split; [exact Hrun |]. apply Hiff.
  exists "URGENT". split; [reflexivity |]. split; [discriminate |].
  intros Hin. apply elem_of_cons in Hin as [Hin | Hin]; [discriminate |].
  apply elem_of_cons in Hin as [Hin | Hin]; [discriminate |].
  apply elem_of_cons in Hin as [Hin | Hin]; [discriminate |].
  by apply elem_of_nil in Hin.
Defined.
